(** * gogram: the MTProto session engine and the exported-sender pool

    A shallow embedding of [MTProto] (connection life cycle, request
    multiplexer, receive loop, session import/export) and of the
    exported-sender pool of [telegram.Client], with the properties the
    protocol specification states about them.

    Go values are modelled as follows.  [int], [int32] and [int64] values
    are [Z]; byte slices are lists of [Z] in [0, 256); Go strings are
    [string]; the [error] interface is the inductive [error], whose
    constructors are the dynamic types the code distinguishes; pointers to
    channels are addresses into a heap of channels; a [context.Context] is
    the number of the [CreateConnection] call that made it.  Everything the
    engine asks of the outside (the transport, the clock, the session
    store, the peer) is answered by an [Env], indexed by a counter of the
    questions asked so far, so that a run is a function of the environment. *)

From Stdlib Require Import ZArith String Ascii Lia.
From stdpp Require Import gmap strings list fin_maps.

Set Warnings "-register-all".
Open Scope string_scope.
Open Scope Z_scope.

(** ** Strings *)

(** [strings.HasPrefix s p]. *)
Fixpoint strings_HasPrefix (s p : string) : bool :=
  match p with
  | EmptyString => true
  | String a p' =>
      match s with
      | EmptyString => false
      | String b s' => if Ascii.eqb a b then strings_HasPrefix s' p' else false
      end
  end.

(** [strings.Contains s sub]: [sub] occurs somewhere in [s]. *)
Fixpoint strings_Contains (s sub : string) : bool :=
  strings_HasPrefix s sub ||
  match s with
  | EmptyString => false
  | String _ s' => strings_Contains s' sub
  end.

(** ** Protocol objects *)

(** The decoded wire objects [processResponse] switches on, the objects the
    engine itself sends, and the internal sentinel that is delivered through
    response channels.  An inbound message ([messages.Common]) carries its
    message id, its sequence number and what [tl.DecodeUnknownObject] makes
    of its payload. *)
Inductive Object : Type :=
| MessageContainer (items : list Common)
| BadServerSalt (NewSalt : Z)
| NewSessionCreated (ServerSalt : Z)
| Pong
| MsgsAck (MsgIDs : list Z)
| BadMsgNotification (Code : Z)
| RpcResult (ReqMsgID : Z) (Obj : Object)
| GzipPacked (Obj : Object)
| RpcError (ErrorCode : Z) (ErrorMessage : string)
| PingParams (PingID : Z)
| errorSessionConfigsChanged
| OtherObject (name : string)
with Common : Type :=
| mkCommon (MsgID SeqNo : Z) (Msg : Decoded)
with Decoded : Type :=
| DecodeFails (text : string)
| DecodesTo (data : Object).

Definition GetMsgID (msg : Common) : Z := let 'mkCommon i _ _ := msg in i.
Definition GetSeqNo (msg : Common) : Z := let 'mkCommon _ s _ := msg in s.
Definition GetMsg (msg : Common) : Decoded := let 'mkCommon _ _ d := msg in d.

(** [MessageRequireToAck]. *)
Definition MessageRequireToAck (msg : Object) : bool :=
  match msg with
  | MsgsAck _ => false
  | _ => true
  end.

(** ** Errors *)

(** The dynamic type of [ErrResponseCode.AdditionalInfo], a Go [any]. *)
Inductive any : Type :=
| AnyNil
| AnyInt (n : Z)
| AnyString (s : string).

Record ErrResponseCode := mkErrResponseCode {
  Code : Z;
  Message : string;
  Description : string;
  AdditionalInfo : any
}.

(** Values of the Go [error] interface, by dynamic type. *)
Inductive error : Type :=
| io_EOF
| context_Canceled
| transport_ErrCode (e : Z)
| ErrResponse (r : ErrResponseCode)
| ErrBadMsg (code : Z)
| errors_New (text : string)
| errors_Wrap (err : error) (text : string).

(** ** The session record and its persistence *)

Record Session := mkSession {
  Key : list Z;
  Hash : list Z;
  Salt : Z;
  Hostname : string;
  AppID : Z
}.

(** ** Channels *)

(** A response channel: what has been sent on it and not yet received, and
    whether it has been closed. *)
Record chan := mkChan {
  buf : list Object;
  closed : bool
}.

Definition chan_push (o : Object) (c : chan) : chan :=
  {| buf := buf c ++ [o]; closed := closed c |}.

Definition chan_close (c : chan) : chan :=
  {| buf := buf c; closed := true |}.

(** ** Observable effects *)

Inductive event : Type :=
| EvLog (text : string)
| EvSleep (seconds : Z)
| EvWrite (msgID : Z) (data : Object)
| EvWriteFailed (msgID : Z) (data : Object)
| EvConnected (ctx : nat)
| EvStartReading (ctx : nat)
| EvMakeAuthKey
| EvSaveSession (s : Session)
| EvMakeRequest (data : Object)
| EvHandled (data : Object)
| EvUnhandled (data : Object).

(** ** The environment *)

(** What [transport.ReadMsg] returns. *)
Inductive read_result : Type :=
| ReadError (err : error)
| ReadMessage (msg : Common).

(** What a handshake returns. *)
Inductive handshake_result : Type :=
| HandshakeError (err : error)
| HandshakeKey (key hash : list Z) (salt : Z).

(** The collaborators of the engine that are outside this file.  The first
    group are pure helpers of the repository; the second group are the
    answers of the outside world, the [n]-th question being answered by the
    value at [n]. *)
Record Env := mkEnv {
  RpcErrorToNative : Z -> string -> ErrResponseCode;
  ErrResponseCode_Error : ErrResponseCode -> string;
  ErrCode_Error : Z -> string;
  BadMsg_Error : Z -> string;
  UnwrapNativeTypes : option Object -> option Object;
  DcList : list (Z * string);
  transport_NewTransport : nat -> option error;
  transport_WriteMsg : nat -> option error;
  transport_ReadMsg : nat -> read_result;
  storage_Save : nat -> option error;
  handshake : nat -> handshake_result;
  clock : nat -> Z * Z;
  arrival : nat -> option Object;
  MakeRequest_answer : nat -> option error
}.


(** ** String sessions *)

(** [session.StringSession]: what [session.NewStringSession] is given. *)
Record StringSession := mkStringSession {
  ss_authKey : list Z;
  ss_authKeyHash : list Z;
  ss_dcID : Z;
  ss_ipAddr : string;
  ss_appID : Z
}.

Definition NewStringSession (authKey authKeyHash : list Z) (dcID : Z)
    (ipAddr : string) (appID : Z) : StringSession :=
  mkStringSession authKey authKeyHash dcID ipAddr appID.

(** Four little-endian bytes of a 32-bit value, and back (unsigned, then
    read as a two's-complement [int32]). *)
Definition le32 (n : Z) : list Z :=
  let u := n mod 2 ^ 32 in
  [u mod 256; (u / 256) mod 256; (u / 65536) mod 256; (u / 16777216) mod 256].

Definition int32_of_unsigned (u : Z) : Z :=
  if u <? 2 ^ 31 then u else u - 2 ^ 32.

Definition read_le32 (bs : list Z) : option (Z * list Z) :=
  match bs with
  | b0 :: b1 :: b2 :: b3 :: rest =>
      Some (int32_of_unsigned (b0 + 256 * b1 + 65536 * b2 + 16777216 * b3), rest)
  | _ => None
  end.

(** A byte string with its length in front. *)
Definition put_bytes (bs : list Z) : list Z :=
  le32 (Z.of_nat (length bs)) ++ bs.

Definition read_bytes (bs : list Z) : option (list Z * list Z) :=
  '(n, rest) ← read_le32 bs;
  if (0 <=? n) && (n <=? Z.of_nat (length rest))
  then Some (take (Z.to_nat n) rest, drop (Z.to_nat n) rest)
  else None.

Definition bytes_of_string (s : string) : list Z :=
  map (fun c => Z.of_N (N_of_ascii c)) (list_ascii_of_string s).

Definition string_of_bytes (bs : list Z) : string :=
  string_of_list_ascii (map (fun b => ascii_of_N (Z.to_N b)) bs).

(** The 64 digits, in the URL-safe order. *)
Definition b64_digits : string :=
  "ABCDEFGHIJKLMNOPQRSTUVWXYZabcdefghijklmnopqrstuvwxyz0123456789-_".

Definition digit_of_sextet (n : Z) : ascii :=
  match String.get (Z.to_nat n) b64_digits with
  | Some c => c
  | None => "A"%char
  end.

Fixpoint index_from (i : Z) (c : ascii) (s : string) : option Z :=
  match s with
  | EmptyString => None
  | String d s' => if Ascii.eqb c d then Some i else index_from (i + 1) c s'
  end.

Definition sextet_of_digit (c : ascii) : option Z := index_from 0 c b64_digits.

(** Three bytes make four sextets; a last group of one or two bytes makes
    two or three (no padding). *)
Fixpoint sextets_of_bytes (bs : list Z) : list Z :=
  match bs with
  | a :: b :: c :: rest =>
      a / 4 :: (a mod 4) * 16 + b / 16 :: (b mod 16) * 4 + c / 64 :: c mod 64
        :: sextets_of_bytes rest
  | [a; b] => [a / 4; (a mod 4) * 16 + b / 16; (b mod 16) * 4]
  | [a] => [a / 4; (a mod 4) * 16]
  | [] => []
  end.

Fixpoint bytes_of_sextets (ss : list Z) : option (list Z) :=
  match ss with
  | p :: q :: r :: s :: rest =>
      tl ← bytes_of_sextets rest;
      Some (p * 4 + q / 16 :: (q mod 16) * 16 + r / 4 :: (r mod 4) * 64 + s :: tl)
  | [p; q; r] => Some [p * 4 + q / 16; (q mod 16) * 16 + r / 4]
  | [p; q] => Some [p * 4 + q / 16]
  | [_] => None
  | [] => Some []
  end.

Fixpoint digits_of_sextets (ss : list Z) : string :=
  match ss with
  | [] => EmptyString
  | s :: rest => String (digit_of_sextet s) (digits_of_sextets rest)
  end.

Fixpoint sextets_of_digits (s : string) : option (list Z) :=
  match s with
  | EmptyString => Some []
  | String c s' =>
      n ← sextet_of_digit c;
      rest ← sextets_of_digits s';
      Some (n :: rest)
  end.

Definition session_version : ascii := "1"%char.

Definition session_payload (s : StringSession) : list Z :=
  put_bytes (ss_authKey s) ++ put_bytes (ss_authKeyHash s) ++ le32 (ss_dcID s)
    ++ put_bytes (bytes_of_string (ss_ipAddr s)) ++ le32 (ss_appID s).

Definition read_payload (bs : list Z) : option StringSession :=
  '(key, bs1) ← read_bytes bs;
  '(hash, bs2) ← read_bytes bs1;
  '(dc, bs3) ← read_le32 bs2;
  '(ip, bs4) ← read_bytes bs3;
  '(app, bs5) ← read_le32 bs4;
  match bs5 with
  | [] => Some (mkStringSession key hash dc (string_of_bytes ip) app)
  | _ => None
  end.

(** Modelled from the spec: [StringSession.Encode] of package [session],
    which is not among the sources.  The spec describes it as a
    base-64-like encoding of the record with a leading version byte, a
    function of its inputs only.  Here the record is laid out field by
    field (byte strings with a four-byte length, integers as four bytes),
    written in base 64 and prefixed by the version digit. *)
Definition StringSession_Encode (s : StringSession) : string :=
  String session_version (digits_of_sextets (sextets_of_bytes (session_payload s))).

(** Modelled from the spec: [StringSession.Decode] of package [session],
    also absent; decoding failures are explicit errors.  It returns the
    auth key, its hash, the dc id, the address and the app id. *)
Definition StringSession_Decode (encoded : string) : error + StringSession :=
  match encoded with
  | EmptyString => inl (errors_New "invalid string session")
  | String v body =>
      if Ascii.eqb v session_version then
        match ss ← sextets_of_digits body; bs ← bytes_of_sextets ss; read_payload bs with
        | Some s => inr s
        | None => inl (errors_New "invalid string session")
        end
      else inl (errors_New "invalid string session version")
  end.
(** ** The world *)

(** The fields of [MTProto] the engine reads and writes, followed by what
    lives outside the struct: the heap of response channels and the next
    free address, the cancelled contexts and the next context, the session
    store, the effects so far, and the counter of questions asked. *)
Record World := mkWorld {
  Addr : string;
  appID : Z;
  memorySession : bool;
  isConnected : bool;
  authKey : list Z;
  authKeyHash : list Z;
  serverSalt : Z;
  encrypted : bool;
  responseChannels : gmap Z nat;
  lastMessageID : Z;
  serviceChannel : list Object;
  serviceModeActivated : bool;
  transport : option nat;
  stopRoutines : option nat;
  serverRequestHandlers : list (Object -> bool);
  chans : gmap nat chan;
  nextChan : nat;
  cancelled : list nat;
  nextCtx : nat;
  storage : option Session;
  trace : list event;
  tick : nat
}.

Definition set_Addr (v : string) (w : World) : World :=
  {| Addr := v; appID := appID w; memorySession := memorySession w; isConnected := isConnected
     w; authKey := authKey w; authKeyHash := authKeyHash w; serverSalt := serverSalt w;
     encrypted := encrypted w; responseChannels := responseChannels w; lastMessageID :=
     lastMessageID w; serviceChannel := serviceChannel w; serviceModeActivated :=
     serviceModeActivated w; transport := transport w; stopRoutines := stopRoutines w;
     serverRequestHandlers := serverRequestHandlers w; chans := chans w; nextChan := nextChan w;
     cancelled := cancelled w; nextCtx := nextCtx w; storage := storage w; trace := trace w;
     tick := tick w |}.
Definition set_appID (v : Z) (w : World) : World :=
  {| Addr := Addr w; appID := v; memorySession := memorySession w; isConnected := isConnected w;
     authKey := authKey w; authKeyHash := authKeyHash w; serverSalt := serverSalt w; encrypted
     := encrypted w; responseChannels := responseChannels w; lastMessageID := lastMessageID w;
     serviceChannel := serviceChannel w; serviceModeActivated := serviceModeActivated w;
     transport := transport w; stopRoutines := stopRoutines w; serverRequestHandlers :=
     serverRequestHandlers w; chans := chans w; nextChan := nextChan w; cancelled := cancelled
     w; nextCtx := nextCtx w; storage := storage w; trace := trace w; tick := tick w |}.
Definition set_memorySession (v : bool) (w : World) : World :=
  {| Addr := Addr w; appID := appID w; memorySession := v; isConnected := isConnected w; authKey
     := authKey w; authKeyHash := authKeyHash w; serverSalt := serverSalt w; encrypted :=
     encrypted w; responseChannels := responseChannels w; lastMessageID := lastMessageID w;
     serviceChannel := serviceChannel w; serviceModeActivated := serviceModeActivated w;
     transport := transport w; stopRoutines := stopRoutines w; serverRequestHandlers :=
     serverRequestHandlers w; chans := chans w; nextChan := nextChan w; cancelled := cancelled
     w; nextCtx := nextCtx w; storage := storage w; trace := trace w; tick := tick w |}.
Definition set_isConnected (v : bool) (w : World) : World :=
  {| Addr := Addr w; appID := appID w; memorySession := memorySession w; isConnected := v;
     authKey := authKey w; authKeyHash := authKeyHash w; serverSalt := serverSalt w; encrypted
     := encrypted w; responseChannels := responseChannels w; lastMessageID := lastMessageID w;
     serviceChannel := serviceChannel w; serviceModeActivated := serviceModeActivated w;
     transport := transport w; stopRoutines := stopRoutines w; serverRequestHandlers :=
     serverRequestHandlers w; chans := chans w; nextChan := nextChan w; cancelled := cancelled
     w; nextCtx := nextCtx w; storage := storage w; trace := trace w; tick := tick w |}.
Definition set_authKey (v : list Z) (w : World) : World :=
  {| Addr := Addr w; appID := appID w; memorySession := memorySession w; isConnected :=
     isConnected w; authKey := v; authKeyHash := authKeyHash w; serverSalt := serverSalt w;
     encrypted := encrypted w; responseChannels := responseChannels w; lastMessageID :=
     lastMessageID w; serviceChannel := serviceChannel w; serviceModeActivated :=
     serviceModeActivated w; transport := transport w; stopRoutines := stopRoutines w;
     serverRequestHandlers := serverRequestHandlers w; chans := chans w; nextChan := nextChan w;
     cancelled := cancelled w; nextCtx := nextCtx w; storage := storage w; trace := trace w;
     tick := tick w |}.
Definition set_authKeyHash (v : list Z) (w : World) : World :=
  {| Addr := Addr w; appID := appID w; memorySession := memorySession w; isConnected :=
     isConnected w; authKey := authKey w; authKeyHash := v; serverSalt := serverSalt w;
     encrypted := encrypted w; responseChannels := responseChannels w; lastMessageID :=
     lastMessageID w; serviceChannel := serviceChannel w; serviceModeActivated :=
     serviceModeActivated w; transport := transport w; stopRoutines := stopRoutines w;
     serverRequestHandlers := serverRequestHandlers w; chans := chans w; nextChan := nextChan w;
     cancelled := cancelled w; nextCtx := nextCtx w; storage := storage w; trace := trace w;
     tick := tick w |}.
Definition set_serverSalt (v : Z) (w : World) : World :=
  {| Addr := Addr w; appID := appID w; memorySession := memorySession w; isConnected :=
     isConnected w; authKey := authKey w; authKeyHash := authKeyHash w; serverSalt := v;
     encrypted := encrypted w; responseChannels := responseChannels w; lastMessageID :=
     lastMessageID w; serviceChannel := serviceChannel w; serviceModeActivated :=
     serviceModeActivated w; transport := transport w; stopRoutines := stopRoutines w;
     serverRequestHandlers := serverRequestHandlers w; chans := chans w; nextChan := nextChan w;
     cancelled := cancelled w; nextCtx := nextCtx w; storage := storage w; trace := trace w;
     tick := tick w |}.
Definition set_encrypted (v : bool) (w : World) : World :=
  {| Addr := Addr w; appID := appID w; memorySession := memorySession w; isConnected :=
     isConnected w; authKey := authKey w; authKeyHash := authKeyHash w; serverSalt := serverSalt
     w; encrypted := v; responseChannels := responseChannels w; lastMessageID := lastMessageID
     w; serviceChannel := serviceChannel w; serviceModeActivated := serviceModeActivated w;
     transport := transport w; stopRoutines := stopRoutines w; serverRequestHandlers :=
     serverRequestHandlers w; chans := chans w; nextChan := nextChan w; cancelled := cancelled
     w; nextCtx := nextCtx w; storage := storage w; trace := trace w; tick := tick w |}.
Definition set_responseChannels (v : gmap Z nat) (w : World) : World :=
  {| Addr := Addr w; appID := appID w; memorySession := memorySession w; isConnected :=
     isConnected w; authKey := authKey w; authKeyHash := authKeyHash w; serverSalt := serverSalt
     w; encrypted := encrypted w; responseChannels := v; lastMessageID := lastMessageID w;
     serviceChannel := serviceChannel w; serviceModeActivated := serviceModeActivated w;
     transport := transport w; stopRoutines := stopRoutines w; serverRequestHandlers :=
     serverRequestHandlers w; chans := chans w; nextChan := nextChan w; cancelled := cancelled
     w; nextCtx := nextCtx w; storage := storage w; trace := trace w; tick := tick w |}.
Definition set_lastMessageID (v : Z) (w : World) : World :=
  {| Addr := Addr w; appID := appID w; memorySession := memorySession w; isConnected :=
     isConnected w; authKey := authKey w; authKeyHash := authKeyHash w; serverSalt := serverSalt
     w; encrypted := encrypted w; responseChannels := responseChannels w; lastMessageID := v;
     serviceChannel := serviceChannel w; serviceModeActivated := serviceModeActivated w;
     transport := transport w; stopRoutines := stopRoutines w; serverRequestHandlers :=
     serverRequestHandlers w; chans := chans w; nextChan := nextChan w; cancelled := cancelled
     w; nextCtx := nextCtx w; storage := storage w; trace := trace w; tick := tick w |}.
Definition set_serviceChannel (v : list Object) (w : World) : World :=
  {| Addr := Addr w; appID := appID w; memorySession := memorySession w; isConnected :=
     isConnected w; authKey := authKey w; authKeyHash := authKeyHash w; serverSalt := serverSalt
     w; encrypted := encrypted w; responseChannels := responseChannels w; lastMessageID :=
     lastMessageID w; serviceChannel := v; serviceModeActivated := serviceModeActivated w;
     transport := transport w; stopRoutines := stopRoutines w; serverRequestHandlers :=
     serverRequestHandlers w; chans := chans w; nextChan := nextChan w; cancelled := cancelled
     w; nextCtx := nextCtx w; storage := storage w; trace := trace w; tick := tick w |}.
Definition set_serviceModeActivated (v : bool) (w : World) : World :=
  {| Addr := Addr w; appID := appID w; memorySession := memorySession w; isConnected :=
     isConnected w; authKey := authKey w; authKeyHash := authKeyHash w; serverSalt := serverSalt
     w; encrypted := encrypted w; responseChannels := responseChannels w; lastMessageID :=
     lastMessageID w; serviceChannel := serviceChannel w; serviceModeActivated := v; transport
     := transport w; stopRoutines := stopRoutines w; serverRequestHandlers :=
     serverRequestHandlers w; chans := chans w; nextChan := nextChan w; cancelled := cancelled
     w; nextCtx := nextCtx w; storage := storage w; trace := trace w; tick := tick w |}.
Definition set_transport (v : option nat) (w : World) : World :=
  {| Addr := Addr w; appID := appID w; memorySession := memorySession w; isConnected :=
     isConnected w; authKey := authKey w; authKeyHash := authKeyHash w; serverSalt := serverSalt
     w; encrypted := encrypted w; responseChannels := responseChannels w; lastMessageID :=
     lastMessageID w; serviceChannel := serviceChannel w; serviceModeActivated :=
     serviceModeActivated w; transport := v; stopRoutines := stopRoutines w;
     serverRequestHandlers := serverRequestHandlers w; chans := chans w; nextChan := nextChan w;
     cancelled := cancelled w; nextCtx := nextCtx w; storage := storage w; trace := trace w;
     tick := tick w |}.
Definition set_stopRoutines (v : option nat) (w : World) : World :=
  {| Addr := Addr w; appID := appID w; memorySession := memorySession w; isConnected :=
     isConnected w; authKey := authKey w; authKeyHash := authKeyHash w; serverSalt := serverSalt
     w; encrypted := encrypted w; responseChannels := responseChannels w; lastMessageID :=
     lastMessageID w; serviceChannel := serviceChannel w; serviceModeActivated :=
     serviceModeActivated w; transport := transport w; stopRoutines := v; serverRequestHandlers
     := serverRequestHandlers w; chans := chans w; nextChan := nextChan w; cancelled :=
     cancelled w; nextCtx := nextCtx w; storage := storage w; trace := trace w; tick := tick w
     |}.
Definition set_serverRequestHandlers (v : list (Object -> bool)) (w : World) : World :=
  {| Addr := Addr w; appID := appID w; memorySession := memorySession w; isConnected :=
     isConnected w; authKey := authKey w; authKeyHash := authKeyHash w; serverSalt := serverSalt
     w; encrypted := encrypted w; responseChannels := responseChannels w; lastMessageID :=
     lastMessageID w; serviceChannel := serviceChannel w; serviceModeActivated :=
     serviceModeActivated w; transport := transport w; stopRoutines := stopRoutines w;
     serverRequestHandlers := v; chans := chans w; nextChan := nextChan w; cancelled :=
     cancelled w; nextCtx := nextCtx w; storage := storage w; trace := trace w; tick := tick w
     |}.
Definition set_chans (v : gmap nat chan) (w : World) : World :=
  {| Addr := Addr w; appID := appID w; memorySession := memorySession w; isConnected :=
     isConnected w; authKey := authKey w; authKeyHash := authKeyHash w; serverSalt := serverSalt
     w; encrypted := encrypted w; responseChannels := responseChannels w; lastMessageID :=
     lastMessageID w; serviceChannel := serviceChannel w; serviceModeActivated :=
     serviceModeActivated w; transport := transport w; stopRoutines := stopRoutines w;
     serverRequestHandlers := serverRequestHandlers w; chans := v; nextChan := nextChan w;
     cancelled := cancelled w; nextCtx := nextCtx w; storage := storage w; trace := trace w;
     tick := tick w |}.
Definition set_nextChan (v : nat) (w : World) : World :=
  {| Addr := Addr w; appID := appID w; memorySession := memorySession w; isConnected :=
     isConnected w; authKey := authKey w; authKeyHash := authKeyHash w; serverSalt := serverSalt
     w; encrypted := encrypted w; responseChannels := responseChannels w; lastMessageID :=
     lastMessageID w; serviceChannel := serviceChannel w; serviceModeActivated :=
     serviceModeActivated w; transport := transport w; stopRoutines := stopRoutines w;
     serverRequestHandlers := serverRequestHandlers w; chans := chans w; nextChan := v;
     cancelled := cancelled w; nextCtx := nextCtx w; storage := storage w; trace := trace w;
     tick := tick w |}.
Definition set_cancelled (v : list nat) (w : World) : World :=
  {| Addr := Addr w; appID := appID w; memorySession := memorySession w; isConnected :=
     isConnected w; authKey := authKey w; authKeyHash := authKeyHash w; serverSalt := serverSalt
     w; encrypted := encrypted w; responseChannels := responseChannels w; lastMessageID :=
     lastMessageID w; serviceChannel := serviceChannel w; serviceModeActivated :=
     serviceModeActivated w; transport := transport w; stopRoutines := stopRoutines w;
     serverRequestHandlers := serverRequestHandlers w; chans := chans w; nextChan := nextChan w;
     cancelled := v; nextCtx := nextCtx w; storage := storage w; trace := trace w; tick := tick
     w |}.
Definition set_nextCtx (v : nat) (w : World) : World :=
  {| Addr := Addr w; appID := appID w; memorySession := memorySession w; isConnected :=
     isConnected w; authKey := authKey w; authKeyHash := authKeyHash w; serverSalt := serverSalt
     w; encrypted := encrypted w; responseChannels := responseChannels w; lastMessageID :=
     lastMessageID w; serviceChannel := serviceChannel w; serviceModeActivated :=
     serviceModeActivated w; transport := transport w; stopRoutines := stopRoutines w;
     serverRequestHandlers := serverRequestHandlers w; chans := chans w; nextChan := nextChan w;
     cancelled := cancelled w; nextCtx := v; storage := storage w; trace := trace w; tick :=
     tick w |}.
Definition set_storage (v : option Session) (w : World) : World :=
  {| Addr := Addr w; appID := appID w; memorySession := memorySession w; isConnected :=
     isConnected w; authKey := authKey w; authKeyHash := authKeyHash w; serverSalt := serverSalt
     w; encrypted := encrypted w; responseChannels := responseChannels w; lastMessageID :=
     lastMessageID w; serviceChannel := serviceChannel w; serviceModeActivated :=
     serviceModeActivated w; transport := transport w; stopRoutines := stopRoutines w;
     serverRequestHandlers := serverRequestHandlers w; chans := chans w; nextChan := nextChan w;
     cancelled := cancelled w; nextCtx := nextCtx w; storage := v; trace := trace w; tick :=
     tick w |}.
Definition set_trace (v : list event) (w : World) : World :=
  {| Addr := Addr w; appID := appID w; memorySession := memorySession w; isConnected :=
     isConnected w; authKey := authKey w; authKeyHash := authKeyHash w; serverSalt := serverSalt
     w; encrypted := encrypted w; responseChannels := responseChannels w; lastMessageID :=
     lastMessageID w; serviceChannel := serviceChannel w; serviceModeActivated :=
     serviceModeActivated w; transport := transport w; stopRoutines := stopRoutines w;
     serverRequestHandlers := serverRequestHandlers w; chans := chans w; nextChan := nextChan w;
     cancelled := cancelled w; nextCtx := nextCtx w; storage := storage w; trace := v; tick :=
     tick w |}.
Definition set_tick (v : nat) (w : World) : World :=
  {| Addr := Addr w; appID := appID w; memorySession := memorySession w; isConnected :=
     isConnected w; authKey := authKey w; authKeyHash := authKeyHash w; serverSalt := serverSalt
     w; encrypted := encrypted w; responseChannels := responseChannels w; lastMessageID :=
     lastMessageID w; serviceChannel := serviceChannel w; serviceModeActivated :=
     serviceModeActivated w; transport := transport w; stopRoutines := stopRoutines w;
     serverRequestHandlers := serverRequestHandlers w; chans := chans w; nextChan := nextChan w;
     cancelled := cancelled w; nextCtx := nextCtx w; storage := storage w; trace := trace w;
     tick := v |}.


(** ** Computations *)

(** A call either returns a value and a new world, or panics (a nil
    function called, a send on a closed channel, a failed type assertion),
    or has not returned within the number of recursive calls allowed. *)
Inductive outcome (A : Type) : Type :=
| Ret (a : A) (w : World)
| Panic (text : string) (w : World)
| OutOfFuel.
Arguments Ret {A} a w.
Arguments Panic {A} text w.
Arguments OutOfFuel {A}.

Definition M (A : Type) : Type := World -> outcome A.

Definition ret {A} (a : A) : M A := fun w => Ret a w.

Definition bind {A B} (c : M A) (k : A -> M B) : M B :=
  fun w =>
    match c w with
    | Ret a w' => k a w'
    | Panic t w' => Panic t w'
    | OutOfFuel => OutOfFuel
    end.

Notation "x <- c ;; k" := (bind c (fun x => k))
  (at level 100, c at next level, right associativity).

Definition panic {A} (text : string) : M A := fun w => Panic text w.
Definition get {A} (f : World -> A) : M A := fun w => Ret (f w) w.
Definition modify (f : World -> World) : M unit := fun w => Ret tt (f w).

(** Asks the environment the next question. *)
Definition ask {A} (q : nat -> A) : M A :=
  fun w => Ret (q (tick w)) (set_tick (S (tick w)) w).

Definition emit (e : event) : M unit :=
  modify (fun w => set_trace (trace w ++ [e]) w).

(** ** The engine *)

Section Engine.

Variable env : Env.

(** [err.Error()]. *)
Fixpoint Error (err : error) : string :=
  match err with
  | io_EOF => "EOF"
  | context_Canceled => "context canceled"
  | transport_ErrCode e => ErrCode_Error env e
  | ErrResponse r => ErrResponseCode_Error env r
  | ErrBadMsg c => BadMsg_Error env c
  | errors_New text => text
  | errors_Wrap e text => text +:+ ": " +:+ Error e
  end.

(** [errors.Wrap(err, text)], which is nil when [err] is nil. *)
Definition Wrap (err : option error) (text : string) : option error :=
  match err with
  | None => None
  | Some e => Some (errors_Wrap e text)
  end.

(** *** Session state *)

Definition current_session (w : World) : Session :=
  mkSession (authKey w) (authKeyHash w) (serverSalt w) (Addr w) (appID w).

(** Modelled from the spec: [SaveSession], the [persist()] of the spec,
    which writes the key, its hash, the salt, the endpoint and the app id
    to the backing store; the store may refuse. *)
Definition SaveSession : M (option error) :=
  r <- ask (storage_Save env) ;;
  match r with
  | Some e => ret (Some e)
  | None =>
      s <- get current_session ;;
      _ <- modify (set_storage (Some s)) ;;
      _ <- emit (EvSaveSession s) ;;
      ret None
  end.

(** Modelled from the spec: [next_msg_id()], built from the seconds of the
    clock in the upper 32 bits and a counter in the lower 32 bits with the
    bottom two bits zeroed; when that does not exceed the previous id, the
    previous id plus 4 is returned instead. *)
Definition next_msg_id (now : Z * Z) (last : Z) : Z :=
  let cand := Z.lor (Z.shiftl now.1 32) (Z.land now.2 4294967292) in
  if last <? cand then cand else last + 4.

(** Modelled from the spec: [makeAuthKey], the Handshake.  On success the
    auth key, its hash and an initial salt are written to the session
    state and persisted unless the session is memory-only; from then on a
    key is present. *)
Definition makeAuthKey : M (option error) :=
  _ <- emit EvMakeAuthKey ;;
  r <- ask (handshake env) ;;
  match r with
  | HandshakeError e => ret (Some e)
  | HandshakeKey key hash salt =>
      _ <- modify (fun w =>
             set_encrypted true
               (set_serverSalt salt (set_authKeyHash hash (set_authKey key w)))) ;;
      mem <- get memorySession ;;
      if mem then ret None else SaveSession
  end.

(** *** Connection life cycle *)

(** [m.stopRoutines()]: cancels the context of the last connection; the
    field is nil until [CreateConnection] has run. *)
Definition call_stopRoutines : M unit :=
  fun w =>
    match stopRoutines w with
    | None => Panic "invalid memory address or nil pointer dereference" w
    | Some ctx => Ret tt (set_cancelled (ctx :: cancelled w) w)
    end.

(** Modelled from the spec: [responseChannels.Close()], which closes every
    registered response channel. *)
Definition responseChannels_Close : M unit :=
  modify (fun w =>
    set_chans
      (foldr (fun kr h => alter chan_close kr.2 h) (chans w)
         (map_to_list (responseChannels w))) w).

Definition Disconnect : M (option error) :=
  _ <- call_stopRoutines ;;
  _ <- modify (set_isConnected false) ;;
  ret None.

Definition Terminate : M (option error) :=
  _ <- call_stopRoutines ;;
  _ <- responseChannels_Close ;;
  _ <- emit (EvLog "Disconnecting") ;;
  _ <- modify (set_isConnected false) ;;
  ret None.

Definition connect (ctx : nat) : M (option error) :=
  r <- ask (transport_NewTransport env) ;;
  match r with
  | Some e =>
      _ <- modify (set_transport None) ;;
      ret (Some (errors_Wrap e "creating transport"))
  | None =>
      _ <- modify (set_transport (Some ctx)) ;;
      ret None
  end.

(** [startReadingResponses] starts the goroutine whose body is
    [readLoopStep] below, repeated. *)
Definition startReadingResponses (ctx : nat) : M unit :=
  emit (EvStartReading ctx).

Definition log_if (b : bool) (text : string) : M unit :=
  if b then emit (EvLog text) else ret tt.

Definition log_error (err : option error) (text : string) : M unit :=
  match err with
  | Some _ => emit (EvLog text)
  | None => ret tt
  end.

Definition CreateConnection (withLog : bool) : M (option error) :=
  ctx <- get nextCtx ;;
  _ <- modify (fun w => set_stopRoutines (Some ctx) (set_nextCtx (S ctx) w)) ;;
  _ <- log_if withLog "Connecting" ;;
  err <- connect ctx ;;
  match err with
  | Some e => ret (Some e)
  | None =>
      _ <- modify (set_isConnected true) ;;
      _ <- log_if withLog "Connection established" ;;
      _ <- emit (EvConnected ctx) ;;
      _ <- startReadingResponses ctx ;;
      enc <- get encrypted ;;
      if enc then ret None else makeAuthKey
  end.

(** *** Sending *)

(** Modelled from the spec: [sendPacket], steps 1 to 3 of [send]: it takes
    the next message id, registers a fresh response channel under it and
    hands the packet to the framer; a failed write is returned as the
    error.  Sequence numbers and the encryption are left out. *)
Definition sendPacket (data : Object) : M (error + nat) :=
  now <- ask (clock env) ;;
  last <- get lastMessageID ;;
  let msgID := next_msg_id now last in
  resp <- get nextChan ;;
  _ <- modify (fun w =>
         set_responseChannels (<[msgID := resp]> (responseChannels w))
           (set_chans (<[resp := mkChan [] false]> (chans w))
              (set_nextChan (S resp) (set_lastMessageID msgID w)))) ;;
  r <- ask (transport_WriteMsg env) ;;
  match r with
  | Some e => _ <- emit (EvWriteFailed msgID data) ;; ret (inl e)
  | None => _ <- emit (EvWrite msgID data) ;; ret (inr resp)
  end.

Definition InvokeRequestWithoutUpdate (data : Object) : M (option error) :=
  r <- sendPacket data ;;
  match r with
  | inl e => ret (Some (errors_Wrap e "sending packet"))
  | inr _ => ret None
  end.

Definition Reconnect (WithLogs : bool) : M (option error) :=
  err <- Disconnect ;;
  match err with
  | Some e => ret (Some (errors_Wrap e "disconnecting"))
  | None =>
      _ <- log_if WithLogs "Reconnecting" ;;
      err <- CreateConnection WithLogs ;;
      _ <- log_if (bool_decide (err = None) && WithLogs) "Reconnected" ;;
      _ <- InvokeRequestWithoutUpdate (PingParams 123456789) ;;
      ret (Wrap err "recreating connection")
  end.

(** [<-resp]: takes what is in the channel; on an empty closed channel the
    receive yields nil; on an empty open channel it waits, and what then
    arrives is the environment's answer. *)
Definition recv (resp : nat) : M (option Object) :=
  fun w =>
    match chans w !! resp with
    | Some (mkChan (o :: rest) cl) =>
        Ret (Some o) (set_chans (<[resp := mkChan rest cl]> (chans w)) w)
    | Some (mkChan [] true) => Ret None w
    | _ => ask (arrival env) w
    end.

(** The part of [makeRequest] after [response := <-resp]; [retry] is the
    recursive call. *)
Definition handle_response (retry : M (option Object * option error))
    (response : option Object) : M (option Object * option error) :=
  match response with
  | Some (RpcError code message) =>
      let realErr := RpcErrorToNative env code message in
      if strings_Contains (Message realErr) "FLOOD_WAIT_" then
        match AdditionalInfo realErr with
        | AnyInt n =>
            _ <- emit (EvLog "Flood wait detected") ;;
            _ <- emit (EvSleep n) ;;
            retry
        | _ => panic "interface conversion: interface {} is not int"
        end
      else ret (None, Some (ErrResponse realErr))
  | Some errorSessionConfigsChanged => retry
  | _ => ret (UnwrapNativeTypes env response, None)
  end.

(** What [makeRequest] does once [sendPacket] has returned the channel
    [resp]: it waits for the response and acts on it. *)
Definition await_response (retry : M (option Object * option error))
    (resp : nat) : M (option Object * option error) :=
  response <- recv resp ;;
  handle_response retry response.

Definition is_closed_pipe (err : error) : bool :=
  strings_Contains (Error err) "use of closed network connection"
  || strings_Contains (Error err) "transport is closed".

Fixpoint makeRequest (fuel : nat) (data : Object)
    : M (option Object * option error) :=
  match fuel with
  | O => fun _ => OutOfFuel
  | S fuel' =>
      r <- sendPacket data ;;
      match r with
      | inl err =>
          if is_closed_pipe err then
            _ <- emit (EvLog "Connection Pipe Broken. Reconnecting") ;;
            err' <- Reconnect false ;;
            match err' with
            | Some e =>
                _ <- emit (EvLog "Reconnecting error") ;;
                ret (None, Some (errors_Wrap e "reconnecting"))
            | None => makeRequest fuel' data
            end
          else ret (None, Some (errors_Wrap err "sending packet"))
      | inr resp => await_response (makeRequest fuel' data) resp
      end
  end.

(** Modelled from the spec: [MakeRequest], the exported entry point that
    [processResponse] calls with the acknowledgement.  Of acknowledgements
    the spec says that they are enqueued, sent best-effort, and that the
    client does not wait for them: the call is recorded, it registers no
    mailbox and receives from none, and the error it returns is the
    environment's answer. *)
Definition MakeRequest (data : Object) : M (option error) :=
  _ <- emit (EvMakeRequest data) ;;
  ask (MakeRequest_answer env).

(** *** Receiving *)

(** [v <- o] on a response channel. *)
Definition chan_send (resp : nat) (o : Object) : M unit :=
  fun w =>
    match chans w !! resp with
    | Some c =>
        if closed c then Panic "send on closed channel" w
        else Ret tt (set_chans (<[resp := chan_push o c]> (chans w)) w)
    | None => Panic "send on nil channel" w
    end.

(** The [default] case of the switch: the handlers are offered the object
    in order until one claims it. *)
Definition run_handlers (message : Object) : M unit :=
  hs <- get serverRequestHandlers ;;
  if existsb (fun f => f message) hs then emit (EvHandled message)
  else emit (EvUnhandled message).

(** Modelled from the spec: [writeRPCResponse], which delivers the result
    to the mailbox of the request and, a mailbox being fulfilled once,
    takes it out of the pending ones; a result for an unknown id is passed
    to the server-request handlers. *)
Definition writeRPCResponse (msgID : Z) (data : Object) : M (option error) :=
  chs <- get responseChannels ;;
  match chs !! msgID with
  | Some resp =>
      _ <- chan_send resp data ;;
      _ <- modify (fun w => set_responseChannels (delete msgID (responseChannels w)) w) ;;
      ret None
  | None =>
      _ <- run_handlers data ;;
      ret None
  end.

(** The loop over [m.responseChannels.Keys()] of the [BadServerSalt] case. *)
Fixpoint broadcast (keys : list Z) : M unit :=
  match keys with
  | [] => ret tt
  | k :: rest =>
      chs <- get responseChannels ;;
      _ <- match chs !! k with
           | Some v => chan_send v errorSessionConfigsChanged
           | None => panic "send on nil channel"
           end ;;
      broadcast rest
  end.

Definition Keys (w : World) : list Z := (map_to_list (responseChannels w)).*1.

Fixpoint processResponse (msg : Common) : M (option error) :=
  match msg with
  | mkCommon msgID seqNo (DecodeFails text) =>
      ret (Some (errors_Wrap (errors_New text) "unmarshalling response"))
  | mkCommon msgID seqNo (DecodesTo data) =>
      r <- dispatch data ;;
      match r with
      | Some e => ret (Some e)
      | None =>
          if negb (Z.land seqNo 1 =? 0) then
            err <- MakeRequest (MsgsAck [msgID]) ;;
            ret (Wrap err "sending ack")
          else ret None
      end
  end
with dispatch (data : Object) : M (option error) :=
  match data with
  | MessageContainer items =>
      (fix each (l : list Common) : M (option error) :=
         match l with
         | [] => ret None
         | v :: rest =>
             err <- processResponse v ;;
             match err with
             | Some e => ret (Some (errors_Wrap e "processing item in container"))
             | None => each rest
             end
         end) items
  | BadServerSalt newSalt =>
      _ <- modify (set_serverSalt newSalt) ;;
      mem <- get memorySession ;;
      err <- (if mem then ret None else SaveSession) ;;
      match err with
      | Some e => ret (Some (errors_Wrap e "saving session"))
      | None =>
          _ <- Reconnect false ;;
          keys <- get Keys ;;
          _ <- broadcast keys ;;
          ret None
      end
  | NewSessionCreated salt =>
      _ <- modify (set_serverSalt salt) ;;
      mem <- get memorySession ;;
      err <- (if mem then ret None else SaveSession) ;;
      _ <- log_error err "saving session" ;;
      ret None
  | Pong | MsgsAck _ => ret None
  | BadMsgNotification code => ret (Some (ErrBadMsg code))
  | RpcResult reqMsgID obj =>
      let obj' := match obj with GzipPacked o => o | _ => obj end in
      err <- writeRPCResponse reqMsgID obj' ;;
      ret (Wrap err "writing RPC response")
  | GzipPacked obj => dispatch obj
  | _ => _ <- run_handlers data ;; ret None
  end.

Definition readMsg : M (option error) :=
  tr <- get transport ;;
  match tr with
  | None => ret (Some (errors_New "must setup connection before reading messages"))
  | Some _ =>
      r <- ask (transport_ReadMsg env) ;;
      match r with
      | ReadError err =>
          match err with
          | transport_ErrCode e => ret (Some (ErrResponse (mkErrResponseCode e "" "" AnyNil)))
          | io_EOF | context_Canceled => ret (Some err)
          | _ => ret (Some (errors_Wrap err "reading message"))
          end
      | ReadMessage response =>
          sm <- get serviceModeActivated ;;
          if sm then
            match GetMsg response with
            | DecodeFails text => ret (Some (errors_Wrap (errors_New text) "parsing object"))
            | DecodesTo obj =>
                _ <- modify (fun w => set_serviceChannel (serviceChannel w ++ [obj]) w) ;;
                ret None
            end
          else
            err <- processResponse response ;;
            ret (Wrap err "Incomming Update")
      end
  end.

(** Whether the [for] loop of the reading goroutine goes round again. *)
Inductive loop_ctl : Type :=
| LoopContinue
| LoopReturn.

(** The [default] branch of [switch err] in the reading goroutine. *)
Definition handle_read_error (err : error) : M loop_ctl :=
  err1 <- match err with
          | transport_ErrCode e =>
              if e =? 4294966892 then
                r <- makeAuthKey ;;
                _ <- log_error r "making auth key" ;;
                ret r
              else
                _ <- emit (EvLog "Unhandled errorCode") ;;
                ret (Some err)
          | _ => ret (Some err)
          end ;;
  match err1 with
  | None => panic "invalid memory address or nil pointer dereference"
  | Some e1 =>
      if strings_Contains (Error e1) "required to reconnect!" then
        err2 <- Reconnect false ;;
        _ <- log_error err2 "reconnecting error" ;;
        ret LoopReturn
      else
        err2 <- Reconnect false ;;
        _ <- log_error err2 "reconnecting error" ;;
        ret LoopContinue
  end.

(** One pass through the body of the [for] loop started by
    [startReadingResponses] for the context [ctx]. *)
Definition readLoopStep (ctx : nat) : M loop_ctl :=
  cs <- get cancelled ;;
  if bool_decide (ctx ∈ cs) then ret LoopReturn
  else
    conn <- get isConnected ;;
    if negb conn then
      _ <- emit (EvLog "Connection is not established") ;;
      ret LoopReturn
    else
      err <- readMsg ;;
      match err with
      | None => ret LoopContinue
      | Some context_Canceled => ret LoopReturn
      | Some io_EOF =>
          err' <- Reconnect false ;;
          _ <- log_error err' "reconnecting" ;;
          ret LoopReturn
      | Some e => handle_read_error e
      end.

(** *** Exporting and importing the session *)

Definition GetDC (w : World) : Z :=
  match List.find (fun kv => String.eqb kv.2 (Addr w)) (DcList env) with
  | Some kv => kv.1
  | None => 4
  end.

Definition ExportAuth (w : World) : list Z * list Z * string * Z * Z :=
  (authKey w, authKeyHash w, Addr w, GetDC w, appID w).

(** [Client.ExportSession]. *)
Definition ExportSession (w : World) : string :=
  let '(key, hash, hostname, dcId, appId) := ExportAuth w in
  StringSession_Encode (NewStringSession key hash dcId hostname appId).

Definition ImportRawAuth (authKey' authKeyHash' : list Z) (addr : string)
    (dc : Z) (appID' : Z) : M (bool * option error) :=
  _ <- modify (fun w =>
         set_appID appID' (set_Addr addr
           (set_authKeyHash authKeyHash' (set_authKey authKey' w)))) ;;
  err <- Reconnect false ;;
  ret (negb (bool_decide (err = None)), err).

Definition ImportAuth (Session : string) : M (bool * option error) :=
  match StringSession_Decode Session with
  | inl err => ret (false, Some (errors_Wrap err "decoding string session"))
  | inr s =>
      _ <- modify (fun w =>
             set_appID (ss_appID s) (set_Addr (ss_ipAddr s)
               (set_authKeyHash (ss_authKeyHash s) (set_authKey (ss_authKey s) w)))) ;;
      mem <- get memorySession ;;
      if mem then ret (true, None)
      else
        err <- SaveSession ;;
        match err with
        | Some e => ret (false, Some (errors_Wrap e "saving session"))
        | None => ret (true, None)
        end
  end.

End Engine.

(** ** The exported-sender pool *)

(** A [*Client]: nil, or the address of a client. *)
Definition sender : Type := option nat.

(** The client as far as the pool is concerned: [exportedSenders.senders],
    the next free address, the log, and the counter of questions asked. *)
Record Client := mkClient {
  senders : gmap Z (list sender);
  nextClient : nat;
  clientLog : list string;
  clientTick : nat
}.

(** What creating a sender asks of the outside: whether
    [MTProto.ExportNewSender] and [InitialRequest] succeed. *)
Record PoolEnv := mkPoolEnv {
  ExportNewSender_answer : nat -> option error;
  InitialRequest_answer : nat -> option error
}.

Section Pool.

Variable env : Env.
Variable penv : PoolEnv.

Definition AuthInvalidError : string := "The provided authorization is invalid".

Definition pool_ask {A} (q : nat -> A) (c : Client) : A * Client :=
  (q (clientTick c),
   mkClient (senders c) (nextClient c) (clientLog c) (S (clientTick c))).

Definition pool_new (c : Client) : nat * Client :=
  (nextClient c,
   mkClient (senders c) (S (nextClient c)) (clientLog c) (clientTick c)).

Definition pool_log (text : string) (c : Client) : Client :=
  mkClient (senders c) (nextClient c) (clientLog c ++ [text]) (clientTick c).

Definition pool_of (dcID : Z) (c : Client) : list sender :=
  default [] (senders c !! dcID).

Definition set_pool (dcID : Z) (l : list sender) (c : Client) : Client :=
  mkClient (<[dcID := l]> (senders c)) (nextClient c) (clientLog c) (clientTick c).

(** [CreateExportedSender]; [shareAuthWithTimeout] returns nil whatever
    [shareAuth] does, so it decides nothing here. *)
Definition CreateExportedSender (dcID : Z) (c : Client)
    : sender * option error * Client :=
  let '(r, c1) := pool_ask (ExportNewSender_answer penv) c in
  match r with
  | Some e => (None, Some (errors_Wrap e "exporting new sender"), c1)
  | None =>
      let '(p, c2) := pool_new c1 in
      let '(r', c3) := pool_ask (InitialRequest_answer penv) c2 in
      match r' with
      | Some e => (None, Some (errors_Wrap e "initial request"), c3)
      | None => (Some p, None, c3)
      end
  end.

Definition append_sender (dcID : Z) (s : sender) (st : list sender * Client)
    : list sender * Client :=
  ((st.1 ++ [s])%list, set_pool dcID (pool_of dcID st.2 ++ [s])%list st.2).

(** *** The goroutines of the empty-pool branch *)

(** Where one goroutine of the empty-pool branch stands.  The goroutines
    share [returned] and the map and take no lock among themselves, so each
    [x = append(x, s)] is a load of [x] followed by a store of the longer
    slice, and another goroutine may run in between. *)
Inductive goroutine : Type :=
| GoCreate
| GoRetry
| GoLoad (s : sender)
| GoStore (s : sender) (r : list sender)
| GoMapLoad (s : sender)
| GoMapAssign (s : sender) (p : list sender)
| GoMapAssigning (s : sender) (p : list sender)
| GoDone.

(** What the goroutines share: [returned], the flag the runtime sets while
    a map assignment is in progress, the client with its map, and where
    each goroutine stands. *)
Record racing := mkRacing {
  rs_returned : list sender;
  rs_writing : bool;
  rs_client : Client;
  rs_go : list goroutine
}.

(** The goroutines are still running, or the runtime has stopped the
    program with a fatal error. *)
Inductive raced : Type :=
| Racing (st : racing)
| Fatal (text : string).

(** The next step of goroutine [i].  A map access that meets an assignment
    in progress is the runtime's fatal error. *)
Definition go_step (dcID : Z) (i : nat) (st : racing) : raced :=
  let '(mkRacing returned writing c gs) := st in
  match gs !! i with
  | None | Some GoDone => Racing st
  | Some GoCreate =>
      let '(exportedSender, err, c1) := CreateExportedSender dcID c in
      match err with
      | Some e =>
          if strings_Contains (Error env e) AuthInvalidError then
            Racing (mkRacing returned writing c1 (<[i := GoRetry]> gs))
          else
            Racing (mkRacing returned writing
                      (pool_log "error creating exported sender" c1)
                      (<[i := GoLoad exportedSender]> gs))
      | None => Racing (mkRacing returned writing c1 (<[i := GoLoad exportedSender]> gs))
      end
  | Some GoRetry =>
      let '(exportedSender, err, c1) := CreateExportedSender dcID c in
      match err with
      | Some _ => Racing (mkRacing returned writing c1 (<[i := GoDone]> gs))
      | None => Racing (mkRacing returned writing c1 (<[i := GoLoad exportedSender]> gs))
      end
  | Some (GoLoad s) =>
      Racing (mkRacing returned writing c (<[i := GoStore s returned]> gs))
  | Some (GoStore s r) =>
      Racing (mkRacing (r ++ [s]) writing c (<[i := GoMapLoad s]> gs))
  | Some (GoMapLoad s) =>
      if writing then Fatal "concurrent map read and map write"
      else Racing (mkRacing returned writing c
                     (<[i := GoMapAssign s (pool_of dcID c)]> gs))
  | Some (GoMapAssign s p) =>
      if writing then Fatal "concurrent map writes"
      else Racing (mkRacing returned true c (<[i := GoMapAssigning s p]> gs))
  | Some (GoMapAssigning s p) =>
      Racing (mkRacing returned false (set_pool dcID (p ++ [s]) c) (<[i := GoDone]> gs))
  end.

(** The goroutines run as the schedule says: [i] in the schedule lets
    goroutine [i] take its next step. *)
Fixpoint race (dcID : Z) (sched : list nat) (st : racing) : raced :=
  match sched with
  | [] => Racing st
  | i :: rest =>
      match go_step dcID i st with
      | Racing st' => race dcID rest st'
      | Fatal text => Fatal text
      end
  end.

Definition go_done (g : goroutine) : bool :=
  match g with
  | GoDone => true
  | _ => false
  end.

(** What a call of [BorrowExportedSenders] comes to: it returns, or the
    runtime stops the program, or [exportWaitGroup.Wait()] is still waiting
    when the schedule ends. *)
Inductive borrowed : Type :=
| Borrowed (l : list sender) (err : option error) (c : Client)
| Aborted (text : string)
| Waiting.

(** The loop of the branch where the pool is short. *)
Fixpoint top_up (n : nat) (dcID : Z) (st : list sender * Client)
    : list sender * option error * Client :=
  match n with
  | O => (st.1, None, st.2)
  | S n' =>
      let '(exportedSender, err, c1) := CreateExportedSender dcID st.2 in
      match err with
      | Some e => ([], Some (errors_Wrap e "creating exported sender"), c1)
      | None => top_up n' dcID (append_sender dcID exportedSender (st.1, c1))
      end
  end.

Definition BorrowExportedSenders (dcID : Z) (count : list Z) (sched : list nat)
    (c : Client) : borrowed :=
  let countInt := match count with n :: _ => n | [] => 1 end in
  if countInt <? 1 then Borrowed [] (Some (errors_New "count must be greater than 0")) c
  else if 10 <? countInt then
    Borrowed [] (Some (errors_New "count must be less than 10")) c
  else
    match pool_of dcID c with
    | [] =>
        match race dcID sched
                (mkRacing [] false (set_pool dcID [] c)
                   (replicate (Z.to_nat countInt) GoCreate)) with
        | Fatal text => Aborted text
        | Racing st =>
            if forallb go_done (rs_go st)
            then Borrowed (rs_returned st) None (rs_client st)
            else Waiting
        end
    | _ :: _ =>
        let total := Z.of_nat (length (pool_of dcID c)) in
        if total <? countInt then
          let '(l, err, c') :=
            top_up (Z.to_nat (countInt - total)) dcID (pool_of dcID c, c) in
          Borrowed l err c'
        else Borrowed (take (Z.to_nat countInt) (pool_of dcID c)) None c
    end.

End Pool.

(** ** More of the client *)

(** Go's [s[lo:hi]] on a string, which panics unless
    [0 <= lo <= hi <= len(s)]. *)
Definition go_slice (s : string) (lo hi : Z) : option string :=
  if (0 <=? lo) && (lo <=? hi) && (hi <=? Z.of_nat (String.length s))
  then Some (String.substring (Z.to_nat lo) (Z.to_nat (hi - lo)) s)
  else None.

(** [genCacheFileName]; [None] is the panic of an out-of-range slice. *)
Definition genCacheFileName (stringSession : string) : option string :=
  if String.eqb stringSession "" then Some "cache"
  else
    let n := Z.of_nat (String.length stringSession) in
    match go_slice stringSession (Z.quot n 2 - 1) (Z.quot n 2 + 1) with
    | Some mid => Some ("cache_" +:+ mid)
    | None => None
    end.

(** [AddNewExportedSenderToMap] and [GetCachedExportedSenders]. *)
Definition AddNewExportedSenderToMap (dcID : Z) (s : sender) (c : Client) : Client :=
  set_pool dcID (pool_of dcID c ++ [s])%list c.

Definition GetCachedExportedSenders (dcID : Z) (c : Client) : list sender :=
  match senders c !! dcID with
  | Some v => v
  | None => []
  end.

(** [sender.Terminate()] on each sender of a pool; calling it on a nil
    sender panics. *)
Fixpoint terminate_each (l : list sender) : option (list nat) :=
  match l with
  | [] => Some []
  | None :: _ => None
  | Some p :: rest =>
      match terminate_each rest with
      | Some ts => Some (p :: ts)
      | None => None
      end
  end.

Fixpoint terminate_pools (l : list (Z * list sender)) : option (list nat) :=
  match l with
  | [] => Some []
  | (_, pool) :: rest =>
      match terminate_each pool with
      | None => None
      | Some ts =>
          match terminate_pools rest with
          | Some ts' => Some (ts ++ ts')%list
          | None => None
          end
      end
  end.

(** [cleanExportedSenders]: every pooled sender is terminated and every
    pool is set to nil; the result is the terminated senders and the client,
    or [None] when a nil sender makes [Terminate] panic. *)
Definition cleanExportedSenders (c : Client) : option (list nat * Client) :=
  match terminate_pools (map_to_list (senders c)) with
  | None => None
  | Some ts =>
      Some (ts, mkClient ((fun _ => []) <$> senders c) (nextClient c) (clientLog c)
                  (clientTick c))
  end.

(** What [Client.Start] asks of the rest of the client. *)
Record StartEnv := mkStartEnv {
  IsConnected_answer : bool;
  Connect_answer : option error;
  UpdatesGetState_answer : option error;
  AuthPrompt_answer : option error
}.

Inductive start_call : Type :=
| CallConnect
| CallUpdatesGetState
| CallAuthPrompt.

(** [IsAuthorized]. *)
Definition IsAuthorized (e : StartEnv) : bool * option error :=
  match UpdatesGetState_answer e with
  | Some err => (false, Some err)
  | None => (true, None)
  end.

(** [Client.Start]: the error it returns and the calls it made. *)
Definition Start (e : StartEnv) : option error * list start_call :=
  let '(cerr, calls) :=
    if negb (IsConnected_answer e) then (Connect_answer e, [CallConnect])
    else (None, []) in
  match cerr with
  | Some err => (Some err, calls)
  | None =>
      let '(au, err) := IsAuthorized e in
      let calls := (calls ++ [CallUpdatesGetState])%list in
      if negb (bool_decide (err = None)) && negb au then
        match AuthPrompt_answer e with
        | Some err' => (Some err', (calls ++ [CallAuthPrompt])%list)
        | None => (None, (calls ++ [CallAuthPrompt])%list)
        end
      else if negb (bool_decide (err = None)) then (err, calls)
      else (None, calls)
  end.

(** ** Concrete worlds and environments *)

(** The state [NewMTProto] leaves: nothing connected, no channel, the zero
    value everywhere else. *)
Definition new_world (addr : string) (app : Z) (mem enc : bool) : World :=
  {| Addr := addr; appID := app; memorySession := mem; isConnected := false;
     authKey := []; authKeyHash := []; serverSalt := 0; encrypted := enc;
     responseChannels := ∅; lastMessageID := 0; serviceChannel := [];
     serviceModeActivated := false; transport := None; stopRoutines := None;
     serverRequestHandlers := []; chans := ∅; nextChan := 0%nat; cancelled := [];
     nextCtx := 0%nat; storage := None; trace := []; tick := 0%nat |}.

(** [RpcErrorToNative] as far as these examples need it: the message
    [FLOOD_WAIT_3] advertises three seconds, and any other message is kept
    as it is, with no additional information. *)
Definition native_of (code : Z) (message : string) : ErrResponseCode :=
  if String.eqb message "FLOOD_WAIT_3"
  then mkErrResponseCode code message message (AnyInt 3)
  else mkErrResponseCode code message message AnyNil.

(** An environment in which every connect, save and handshake succeeds and
    the clock stands still; [writes] are the results of the writes, [reads]
    what the transport delivers and [answers] what arrives in a channel
    that is waited on. *)
Definition env_with (writes : nat -> option error) (reads : nat -> read_result)
    (answers : nat -> option Object) : Env :=
  {| RpcErrorToNative := native_of;
     ErrResponseCode_Error := fun r => Message r;
     ErrCode_Error := fun _ => "transport code";
     BadMsg_Error := fun _ => "bad message";
     UnwrapNativeTypes := fun o => o;
     DcList := [(1, "149.154.175.58:443"); (2, "149.154.167.50:443");
                (4, "149.154.167.91:443")];
     transport_NewTransport := fun _ => None;
     transport_WriteMsg := writes;
     transport_ReadMsg := reads;
     storage_Save := fun _ => None;
     handshake := fun _ => HandshakeKey [1; 2; 3] [4; 5] 77;
     clock := fun _ => (1700000000, 0);
     arrival := answers;
     MakeRequest_answer := fun _ => None |}.

Definition quiet_env (writes : nat -> option error) (answers : nat -> option Object)
    : Env :=
  env_with writes (fun _ => ReadError io_EOF) answers.

(** The same environment with a network that is down: no connection can be
    made and no write succeeds. *)
Definition network_down (env : Env) : Env :=
  {| RpcErrorToNative := RpcErrorToNative env;
     ErrResponseCode_Error := ErrResponseCode_Error env;
     ErrCode_Error := ErrCode_Error env;
     BadMsg_Error := BadMsg_Error env;
     UnwrapNativeTypes := UnwrapNativeTypes env;
     DcList := DcList env;
     transport_NewTransport := fun _ => Some (errors_New "dial tcp: connection refused");
     transport_WriteMsg := fun _ => Some (errors_New "use of closed network connection");
     transport_ReadMsg := transport_ReadMsg env;
     storage_Save := storage_Save env;
     handshake := handshake env;
     clock := clock env;
     arrival := arrival env;
     MakeRequest_answer := MakeRequest_answer env |}.

(** The same environment with a session store that refuses every write. *)
Definition store_refuses (env : Env) : Env :=
  {| RpcErrorToNative := RpcErrorToNative env;
     ErrResponseCode_Error := ErrResponseCode_Error env;
     ErrCode_Error := ErrCode_Error env;
     BadMsg_Error := BadMsg_Error env;
     UnwrapNativeTypes := UnwrapNativeTypes env;
     DcList := DcList env;
     transport_NewTransport := transport_NewTransport env;
     transport_WriteMsg := transport_WriteMsg env;
     transport_ReadMsg := transport_ReadMsg env;
     storage_Save := fun _ => Some (errors_New "no space left on device");
     handshake := handshake env;
     clock := clock env;
     arrival := arrival env;
     MakeRequest_answer := MakeRequest_answer env |}.

(** The same environment with other arrivals in the channels that are
    waited on. *)
Definition with_arrival (a : nat -> option Object) (env : Env) : Env :=
  {| RpcErrorToNative := RpcErrorToNative env;
     ErrResponseCode_Error := ErrResponseCode_Error env;
     ErrCode_Error := ErrCode_Error env;
     BadMsg_Error := BadMsg_Error env;
     UnwrapNativeTypes := UnwrapNativeTypes env;
     DcList := DcList env;
     transport_NewTransport := transport_NewTransport env;
     transport_WriteMsg := transport_WriteMsg env;
     transport_ReadMsg := transport_ReadMsg env;
     storage_Save := storage_Save env;
     handshake := handshake env;
     clock := clock env;
     arrival := a;
     MakeRequest_answer := MakeRequest_answer env |}.

(** A request that is not a ping. *)
Definition get_dialogs : Object := OtherObject "MessagesGetDialogsParams".

(** Answers: a flood wait and then a pong; the same with a message that
    contains the flood-wait marker after another word and names no number
    of seconds. *)
Definition flood_then_pong (n : nat) : option Object :=
  match n with
  | 2%nat => Some (RpcError 420 "FLOOD_WAIT_3")
  | _ => Some Pong
  end.

Definition marker_inside_then_pong (n : nat) : option Object :=
  match n with
  | 2%nat => Some (RpcError 420 "X_FLOOD_WAIT_Y")
  | _ => Some Pong
  end.

(** Writes: the first fails on a closed connection; the first two do. *)
Definition closed_once (n : nat) : option error :=
  match n with
  | 1%nat => Some (errors_New "write tcp: use of closed network connection")
  | _ => None
  end.

Definition closed_twice (n : nat) : option error :=
  match n with
  | 1%nat => Some (errors_New "write tcp: use of closed network connection")
  | 6%nat => Some (errors_New "transport is closed")
  | _ => None
  end.

(** A connected session with a key, and one that is connected and has two
    requests in flight. *)
Definition connected_world (mem : bool) : World :=
  set_isConnected true
    (set_transport (Some 0%nat)
       (set_stopRoutines (Some 0%nat)
          (set_nextCtx 1%nat (new_world "149.154.167.91:443" 6 mem true)))).

Definition busy_world (mem : bool) : World :=
  set_responseChannels (<[8 := 0%nat]> (<[12 := 1%nat]> ∅))
    (set_chans (<[0%nat := mkChan [] false]> (<[1%nat := mkChan [] false]> ∅))
       (set_nextChan 2%nat (set_lastMessageID 12 (connected_world mem)))).

(** A session with a key on dc 4, and the world a new [MTProto] starts in
    when it is given a string session. *)
Definition keyed_world (salt : Z) : World :=
  set_serverSalt salt
    (set_authKeyHash [9; 8; 7; 6; 5; 4; 3; 2]
       (set_authKey [1; 2; 3; 250; 251; 252; 253] (connected_world true))).

Definition importing_world : World := new_world "" 0 true true.

(** A pool environment in which every creation succeeds, and one in which
    every export fails with [text]. *)
Definition creating : PoolEnv :=
  {| ExportNewSender_answer := fun _ => None;
     InitialRequest_answer := fun _ => None |}.

Definition failing (text : string) : PoolEnv :=
  {| ExportNewSender_answer := fun _ => Some (errors_New text);
     InitialRequest_answer := fun _ => None |}.

Definition new_client : Client := mkClient ∅ 0%nat [] 0%nat.

(** ** Worlds along a run *)

(** The id [sendPacket] gives to a packet sent from [w]. *)
Definition id_from (env : Env) (w : World) : Z :=
  next_msg_id (clock env (tick w)) (lastMessageID w).

(** The world [sendPacket] leaves before it writes: the id taken and a
    fresh channel registered under it. *)
Definition registered (env : Env) (w : World) : World :=
  set_tick (S (tick w))
    (set_responseChannels (<[id_from env w := nextChan w]> (responseChannels w))
       (set_chans (<[nextChan w := mkChan [] false]> (chans w))
          (set_nextChan (S (nextChan w)) (set_lastMessageID (id_from env w) w)))).

(** After a [sendPacket] whose write succeeded, and one whose write failed. *)
Definition written (env : Env) (data : Object) (w : World) : World :=
  set_trace (trace w ++ [EvWrite (id_from env w) data])
    (set_tick (S (S (tick w))) (registered env w)).

Definition failed (env : Env) (data : Object) (w : World) : World :=
  set_trace (trace w ++ [EvWriteFailed (id_from env w) data])
    (set_tick (S (S (tick w))) (registered env w)).

(** After a [sendPacket], whichever way the write went. *)
Definition sent (env : Env) (data : Object) (w : World) : World :=
  match transport_WriteMsg env (S (tick w)) with
  | None => written env data w
  | Some _ => failed env data w
  end.

(** After a successful [sendPacket] and the receive on its channel, when
    the channel had to be waited on. *)
Definition answered (env : Env) (data : Object) (w : World) : World :=
  set_tick (S (S (S (tick w)))) (written env data w).

(** After [Disconnect] and the connecting part of [CreateConnection false],
    for a session that has a key and whose context was [c0]. *)
Definition redialled (env : Env) (c0 : nat) (w : World) : World :=
  let ctx := nextCtx w in
  let w1 :=
    set_tick (S (tick w))
      (set_stopRoutines (Some ctx)
         (set_nextCtx (S ctx)
            (set_isConnected false (set_cancelled (c0 :: cancelled w) w)))) in
  match transport_NewTransport env (tick w) with
  | Some _ => set_transport None w1
  | None =>
      set_trace (trace w ++ [EvConnected ctx; EvStartReading ctx])
        (set_isConnected true (set_transport (Some ctx) w1))
  end.

(** After [Reconnect false], for such a session. *)
Definition reconnected (env : Env) (c0 : nat) (w : World) : World :=
  sent env (PingParams 123456789) (redialled env c0 w).

(** After the failed write of [makeRequest], its log line and its
    [Reconnect]. *)
Definition piped (env : Env) (data : Object) (c0 : nat) (w : World) : World :=
  reconnected env c0
    (set_trace
       (trace (failed env data w) ++ [EvLog "Connection Pipe Broken. Reconnecting"])
       (failed env data w)).

(** ** Predicates on computations and worlds *)

(** A byte. *)
Definition is_byte (b : Z) : Prop := 0 <= b < 256.

(** A base-64 digit value. *)
Definition is_sextet (s : Z) : Prop := 0 <= s < 64.

(** A string session that the layout can hold: bytes are bytes, lengths and
    integers fit in 32 bits. *)
Definition encodable (s : StringSession) : Prop :=
  Forall is_byte (ss_authKey s) /\ Forall is_byte (ss_authKeyHash s)
  /\ Z.of_nat (length (ss_authKey s)) < 2 ^ 31
  /\ Z.of_nat (length (ss_authKeyHash s)) < 2 ^ 31
  /\ Z.of_nat (String.length (ss_ipAddr s)) < 2 ^ 31
  /\ - 2 ^ 31 <= ss_dcID s < 2 ^ 31
  /\ - 2 ^ 31 <= ss_appID s < 2 ^ 31.

(** A session that can be exported: its string session is encodable. *)
Definition valid_session (env : Env) (w : World) : Prop :=
  encodable (NewStringSession (authKey w) (authKeyHash w) (GetDC env w) (Addr w)
               (appID w)).

(** Senders that are all non-nil, allocated and pairwise distinct. *)
Definition fresh_senders (l : list sender) (c : Client) : Prop :=
  Forall (fun s => exists p, s = Some p /\ (p < nextClient c)%nat) l /\ NoDup l.

(** The schedule that lets the goroutines run one after the other, each to
    its end: no goroutine has more than seven steps. *)
Definition one_by_one (n : nat) : list nat :=
  flat_map (replicate 7) (seq 0 n).

(** A goroutine that has made its sender and not yet stored it into
    [returned] holds it. *)
Definition holds (g : goroutine) (s : sender) : Prop :=
  g = GoLoad s \/ exists r, g = GoStore s r.

(** A goroutine past its store into [returned]. *)
Definition appended (g : goroutine) : bool :=
  match g with
  | GoMapLoad _ | GoMapAssign _ _ | GoMapAssigning _ _ | GoDone => true
  | _ => false
  end.

(** The senders a goroutine has made so far, when every creation succeeds. *)
Definition created (g : goroutine) : nat :=
  match g with
  | GoCreate => 0
  | _ => 1
  end.

(** What holds of the goroutines at every moment when every creation
    succeeds and the first sender made is [base]: the senders made are
    those from [base] on; [returned], as it is and as any goroutine has
    read it, lists made senders without repetition and none that a goroutine
    still holds; no two goroutines hold the same sender; and [returned] is
    not empty once a goroutine has stored into it. *)
Definition race_ok (base : nat) (st : racing) : Prop :=
  let gs := rs_go st in
  let c := rs_client st in
  nextClient c = (base + sum_list (created <$> gs))%nat
  /\ (forall i, gs !! i <> Some GoRetry)
  /\ (forall l,
        l = rs_returned st \/ (exists i s, gs !! i = Some (GoStore s l)) ->
        NoDup l
        /\ (forall s, s ∈ l -> exists p, s = Some p /\ (base <= p < nextClient c)%nat)
        /\ (forall i g s, gs !! i = Some g -> holds g s -> s ∉ l))
  /\ (forall i g s, gs !! i = Some g -> holds g s ->
        exists p, s = Some p /\ (base <= p < nextClient c)%nat)
  /\ (forall i j gi gj s,
        gs !! i = Some gi -> gs !! j = Some gj -> holds gi s -> holds gj s -> i = j)
  /\ ((exists i g, gs !! i = Some g /\ appended g = true) -> rs_returned st <> []).

(** A computation that returns from every world. *)
Definition total {A} (c : M A) : Prop :=
  forall w, exists a w', c w = Ret a w'.

(** What a run returned, and the world it ended in. *)
Definition returned {A} (o : outcome A) : option A :=
  match o with
  | Ret a _ => Some a
  | _ => None
  end.

Definition final {A B} (f : World -> B) (o : outcome A) : option B :=
  match o with
  | Ret _ w | Panic _ w => Some (f w)
  | OutOfFuel => None
  end.

(** The registry of a session is in order when every registered id is at
    most the last id given out, every registered channel has been allocated
    and is open, and no two ids share a channel. *)
Definition pending_ok (w : World) : Prop :=
  (forall k r, responseChannels w !! k = Some r ->
     k <= lastMessageID w /\ (r < nextChan w)%nat
     /\ exists c, chans w !! r = Some c /\ closed c = false)
  /\ (forall k1 k2 r, responseChannels w !! k1 = Some r ->
        responseChannels w !! k2 = Some r -> k1 = k2).

(** A computation that leaves the field [f] of the world as it found it,
    whether it returns or panics. *)
Definition keeps {A X} (f : World -> X) (c : M A) : Prop :=
  forall w,
    match c w with
    | Ret _ w' | Panic _ w' => f w' = f w
    | OutOfFuel => True
    end.

(** A computation that only appends to the trace, and only events that
    satisfy [P]. *)
Definition emits {A} (P : event -> Prop) (c : M A) : Prop :=
  forall w,
    match c w with
    | Ret _ w' | Panic _ w' => exists evs, trace w' = (trace w ++ evs)%list /\ Forall P evs
    | OutOfFuel => True
    end.

(** * Properties *)

(** ** Running computations *)

(** Reads fields through the setters, and nothing else. *)
Ltac world_simpl :=
  cbn [Addr appID memorySession isConnected authKey authKeyHash serverSalt encrypted
       responseChannels lastMessageID serviceChannel serviceModeActivated transport
       stopRoutines serverRequestHandlers chans nextChan cancelled nextCtx storage trace
       tick set_Addr set_appID set_memorySession set_isConnected set_authKey
       set_authKeyHash set_serverSalt set_encrypted set_responseChannels set_lastMessageID
       set_serviceChannel set_serviceModeActivated set_transport set_stopRoutines
       set_serverRequestHandlers set_chans set_nextChan set_cancelled set_nextCtx
       set_storage set_trace set_tick].

Tactic Notation "world_simpl_in" hyp(H) :=
  cbn [Addr appID memorySession isConnected authKey authKeyHash serverSalt encrypted
       responseChannels lastMessageID serviceChannel serviceModeActivated transport
       stopRoutines serverRequestHandlers chans nextChan cancelled nextCtx storage trace
       tick set_Addr set_appID set_memorySession set_isConnected set_authKey
       set_authKeyHash set_serverSalt set_encrypted set_responseChannels set_lastMessageID
       set_serviceChannel set_serviceModeActivated set_transport set_stopRoutines
       set_serverRequestHandlers set_chans set_nextChan set_cancelled set_nextCtx
       set_storage set_trace set_tick] in H.

(** Two worlds with the same fields are equal. *)
Lemma World_eq (w1 w2 : World) :
  Addr w1 = Addr w2 ->
  appID w1 = appID w2 ->
  memorySession w1 = memorySession w2 ->
  isConnected w1 = isConnected w2 ->
  authKey w1 = authKey w2 ->
  authKeyHash w1 = authKeyHash w2 ->
  serverSalt w1 = serverSalt w2 ->
  encrypted w1 = encrypted w2 ->
  responseChannels w1 = responseChannels w2 ->
  lastMessageID w1 = lastMessageID w2 ->
  serviceChannel w1 = serviceChannel w2 ->
  serviceModeActivated w1 = serviceModeActivated w2 ->
  transport w1 = transport w2 ->
  stopRoutines w1 = stopRoutines w2 ->
  serverRequestHandlers w1 = serverRequestHandlers w2 ->
  chans w1 = chans w2 ->
  nextChan w1 = nextChan w2 ->
  cancelled w1 = cancelled w2 ->
  nextCtx w1 = nextCtx w2 ->
  storage w1 = storage w2 ->
  trace w1 = trace w2 ->
  tick w1 = tick w2 ->
  w1 = w2.
Proof. destruct w1, w2; cbn; intros; subst; reflexivity. Qed.

Lemma Ret_world {A} (a : A) w1 w2 : w1 = w2 -> Ret a w1 = Ret a w2.
Proof. now intros ->. Qed.

Ltac same_world := apply Ret_world, World_eq; world_simpl; try reflexivity.

Lemma bind_Ret {A B} (c : M A) (k : A -> M B) w a w' :
  c w = Ret a w' -> bind c k w = k a w'.
Proof. intros H. unfold bind. now rewrite H. Qed.

Lemma total_ret {A} (a : A) : total (ret a).
Proof. intros w. now exists a, w. Qed.

Lemma total_bind {A B} (c : M A) (k : A -> M B) :
  total c -> (forall a, total (k a)) -> total (bind c k).
Proof.
  intros Hc Hk w. destruct (Hc w) as (a & w' & E).
  rewrite (bind_Ret _ _ _ _ _ E). apply Hk.
Qed.

Lemma total_get {A} (f : World -> A) : total (get f).
Proof. intros w. now exists (f w), w. Qed.

Lemma total_modify f : total (modify f).
Proof. intros w. now exists tt, (f w). Qed.

Lemma total_ask {A} (q : nat -> A) : total (ask q).
Proof. intros w. eexists _, _. reflexivity. Qed.

Lemma total_emit e : total (emit e).
Proof. apply total_modify. Qed.

Lemma total_log_if b text : total (log_if b text).
Proof. destruct b; [apply total_emit | apply total_ret]. Qed.

Lemma total_log_error err text : total (log_error err text).
Proof. destruct err; [apply total_emit | apply total_ret]. Qed.

Create HintDb total.
#[local] Hint Resolve total_ret total_get total_modify total_ask total_emit
  total_log_if total_log_error : total.

Ltac total_steps :=
  repeat first
    [ progress eauto with total
    | apply total_bind; [| intros ?]
    | match goal with
      | |- total (match ?x with _ => _ end) => destruct x
      | |- total (if ?b then _ else _) => destruct b
      end ].

Section EngineTotal.

Variable env : Env.

Lemma total_SaveSession : total (SaveSession env).
Proof. unfold SaveSession. total_steps. Qed.

Lemma total_makeAuthKey : total (makeAuthKey env).
Proof. unfold makeAuthKey. pose proof total_SaveSession. total_steps. Qed.

Lemma total_connect ctx : total (connect env ctx).
Proof. unfold connect. total_steps. Qed.

Lemma total_CreateConnection b : total (CreateConnection env b).
Proof.
  unfold CreateConnection, startReadingResponses.
  pose proof total_connect. pose proof total_makeAuthKey. total_steps.
Qed.

Lemma total_sendPacket data : total (sendPacket env data).
Proof. unfold sendPacket. total_steps. Qed.

Lemma total_InvokeRequestWithoutUpdate data :
  total (InvokeRequestWithoutUpdate env data).
Proof.
  unfold InvokeRequestWithoutUpdate. pose proof total_sendPacket. total_steps.
Qed.

Lemma total_MakeRequest data : total (MakeRequest env data).
Proof. unfold MakeRequest. total_steps. Qed.

Lemma total_run_handlers o : total (run_handlers o).
Proof. unfold run_handlers. total_steps. Qed.

(** [Disconnect] and [Reconnect] return once a connection has been made. *)
Lemma Disconnect_eq w ctx :
  stopRoutines w = Some ctx ->
  Disconnect w = Ret None (set_isConnected false (set_cancelled (ctx :: cancelled w) w)).
Proof. intros H. unfold Disconnect, bind, call_stopRoutines. now rewrite H. Qed.

Lemma Reconnect_returns b w :
  is_Some (stopRoutines w) -> exists err w', Reconnect env b w = Ret err w'.
Proof.
  intros [ctx H]. unfold Reconnect.
  rewrite (bind_Ret _ _ _ _ _ (Disconnect_eq w ctx H)).
  pose proof (total_CreateConnection b). pose proof total_InvokeRequestWithoutUpdate.
  assert (T : total (_ <- log_if b "Reconnecting" ;;
                     err <- CreateConnection env b ;;
                     _ <- log_if (bool_decide (err = None) && b) "Reconnected" ;;
                     _ <- InvokeRequestWithoutUpdate env (PingParams 123456789) ;;
                     ret (Wrap err "recreating connection"))) by total_steps.
  apply T.
Qed.

End EngineTotal.

(** ** Closing the response channels *)

Lemma chan_close_idem c : chan_close (chan_close c) = chan_close c.
Proof. reflexivity. Qed.

Lemma close_all_lookup (l : list (Z * nat)) (h : gmap nat chan) (r : nat) :
  foldr (fun kr h => alter chan_close kr.2 h) h l !! r
  = if decide (r ∈ l.*2) then chan_close <$> h !! r else h !! r.
Proof.
  induction l as [|[k r'] l IH].
  - cbn. destruct (decide (r ∈ [])) as [Hin|]; [inversion Hin | done].
  - cbn [foldr snd]. rewrite fmap_cons, lookup_alter. cbn [snd].
    destruct (decide (r' = r)) as [->|Hne]; rewrite IH;
      destruct (decide (r ∈ l.*2)) as [Hin|Hnin].
    + rewrite decide_True by (now left). destruct (h !! r); reflexivity.
    + rewrite decide_True by (now left). done.
    + rewrite decide_True by (now right). done.
    + rewrite decide_False; [done |].
      intros [->|?]%elem_of_cons; done.
Qed.

Lemma registered_in_refs (m : gmap Z nat) k r :
  m !! k = Some r -> r ∈ (map_to_list m).*2.
Proof.
  intros H. apply list_elem_of_fmap. exists (k, r). split; [done |].
  now apply elem_of_map_to_list.
Qed.

(** ** Terminate and Disconnect *)

Section Lifecycle.

Variable env : Env.

Lemma Terminate_eq w ctx :
  stopRoutines w = Some ctx ->
  Terminate w
  = Ret None
      (set_isConnected false
         (set_trace (trace w ++ [EvLog "Disconnecting"])
            (set_chans
               (foldr (fun kr h => alter chan_close kr.2 h) (chans w)
                  (map_to_list (responseChannels w)))
               (set_cancelled (ctx :: cancelled w) w)))).
Proof. intros H. unfold Terminate, bind, call_stopRoutines. now rewrite H. Qed.

(** A caller waiting on an empty channel that gets closed receives nil,
    which [makeRequest] returns without an error. *)
Lemma await_closed_channel retry r w :
  chans w !! r = Some (mkChan [] true) ->
  await_response env retry r w = Ret (UnwrapNativeTypes env None, None) w.
Proof. intros H. unfold await_response, bind, recv. now rewrite H. Qed.

(** C9 (amended).  Once a connection has been made, [Terminate] closes
    every registered response channel, so that a caller of [makeRequest]
    waiting on a channel that was still empty receives nil and returns it
    with a nil error; [Disconnect] leaves the registry and every channel
    as they were.  Both cancel the context of the connection and set the
    connected flag to false. *)
Theorem Terminate_closes_Disconnect_keeps w ctx :
  stopRoutines w = Some ctx ->
  (exists wt,
      Terminate w = Ret None wt
      /\ isConnected wt = false /\ ctx ∈ cancelled wt
      /\ responseChannels wt = responseChannels w
      /\ (forall k r, responseChannels w !! k = Some r ->
            chans wt !! r = chan_close <$> chans w !! r)
      /\ (forall k r retry, responseChannels w !! k = Some r ->
            chans w !! r = Some (mkChan [] false) ->
            await_response env retry r wt
            = Ret (UnwrapNativeTypes env None, None) wt))
  /\ (exists wd,
      Disconnect w = Ret None wd
      /\ isConnected wd = false /\ ctx ∈ cancelled wd
      /\ responseChannels wd = responseChannels w
      /\ chans wd = chans w).
Proof.
  intros Hstop. split.
  - eexists. split; [apply (Terminate_eq w ctx Hstop) |].
    assert (Hclose : forall k r, responseChannels w !! k = Some r ->
              foldr (fun kr h => alter chan_close kr.2 h) (chans w)
                (map_to_list (responseChannels w)) !! r
              = chan_close <$> chans w !! r).
    { intros k r Hk. rewrite close_all_lookup.
      rewrite decide_True by eauto using registered_in_refs. done. }
    cbn. repeat split.
    + now left.
    + exact Hclose.
    + intros k r retry Hk Hc. apply await_closed_channel. cbn.
      rewrite (Hclose k r Hk), Hc. reflexivity.
  - eexists. split; [apply (Disconnect_eq w ctx Hstop) |].
    cbn. repeat split. now left.
Qed.

End Lifecycle.

Lemma Terminate_closes_Disconnect_keeps_witness :
  stopRoutines (busy_world true) = Some 0%nat
  /\ exists wd, Disconnect (busy_world true) = Ret None wd
                /\ chans wd = chans (busy_world true).
Proof.
  split; [reflexivity |].
  destruct (Terminate_closes_Disconnect_keeps
              (quiet_env (fun _ => None) (fun _ => None)) (busy_world true) 0%nat
              eq_refl) as [_ (wd & Hd & _ & _ & _ & Hc)].
  exists wd. split; assumption.
Defined.

(** C9 as stated fails: after [Terminate], the caller that was waiting for
    the response to message 8 gets a nil response and a nil error, not a
    terminated error. *)
Lemma Terminate_caller_sees_no_error :
  let env := quiet_env (fun _ => None) (fun _ => None) in
  exists wt r,
    Terminate (busy_world true) = Ret None wt
    /\ responseChannels (busy_world true) !! 8 = Some 0%nat
    /\ await_response env (makeRequest env 1 (PingParams 1)) 0%nat wt = Ret r wt
    /\ r.2 = None.
Proof.
  intros env. eexists _, (UnwrapNativeTypes env None, None).
  split; [apply (Terminate_eq (busy_world true) 0%nat); reflexivity |].
  split; [vm_compute; reflexivity |].
  split; [| reflexivity].
  apply await_closed_channel. vm_compute. reflexivity.
Qed.

(** ** Importing a session *)

(** C10.  Once a connection has been made, [ImportRawAuth] returns the pair
    of the flag "the reconnect failed" and that error: the flag is true
    exactly when [Reconnect] returned an error, and false after a
    successful import.  [ImportAuth] has the opposite convention: whenever
    it returns, its flag is true exactly when its error is nil. *)
Theorem ImportRawAuth_flag_is_failure env key hash addr dc app w :
  is_Some (stopRoutines w) ->
  (exists b err w',
      ImportRawAuth env key hash addr dc app w = Ret (b, err) w'
      /\ Reconnect env false
           (set_appID app (set_Addr addr (set_authKeyHash hash (set_authKey key w))))
         = Ret err w'
      /\ (b = true <-> err <> None))
  /\ (forall s w0, exists b0 err0 w0',
        ImportAuth env s w0 = Ret (b0, err0) w0' /\ (b0 = true <-> err0 = None)).
Proof.
  intros Hstop. split.
  - destruct (Reconnect_returns env false
                (set_appID app (set_Addr addr
                   (set_authKeyHash hash (set_authKey key w)))) Hstop)
      as (err & w' & E).
    exists (negb (bool_decide (err = None))), err, w'.
    split; [| split; [exact E |]].
    + unfold ImportRawAuth, bind, modify. now rewrite E.
    + destruct err; cbn; split; intros; congruence.
  - intros s w0. unfold ImportAuth.
    destruct (StringSession_Decode s) as [e|ss].
    + eexists _, _, _. split; [reflexivity |]. split; intros; discriminate.
    + unfold bind, modify, get.
      destruct (memorySession _).
      * eexists _, _, _. split; [reflexivity |]. split; intros; reflexivity.
      * match goal with
        | |- context [SaveSession env ?w1] =>
            destruct (total_SaveSession env w1) as ([e|] & w2 & E); rewrite E
        end.
        -- eexists _, _, _. split; [reflexivity |]. split; intros; discriminate.
        -- eexists _, _, _. split; [reflexivity |]. split; intros; reflexivity.
Qed.

Lemma ImportRawAuth_flag_is_failure_witness :
  let env := quiet_env (fun _ => None) (fun _ => None) in
  is_Some (stopRoutines (connected_world true))
  /\ exists w', ImportRawAuth env [1; 2] [3] "149.154.167.50:443" 2 6
                  (connected_world true) = Ret (false, None) w'.
Proof.
  cbn zeta. split; [now exists 0%nat |].
  destruct (ImportRawAuth_flag_is_failure
              (quiet_env (fun _ => None) (fun _ => None)) [1; 2] [3]
              "149.154.167.50:443" 2 6 (connected_world true))
    as [(b & err & w' & E & _ & _) _]; [now exists 0%nat |].
  exists w'. rewrite E. vm_compute in E. injection E as <- <- _. reflexivity.
Defined.

(** ** Service mode *)

(** C6.  While service mode is active, a message read from the transport
    whose payload decodes is appended to the service channel and nothing
    else happens: the registry, every response channel, the session state
    and the effects are as before, so [processResponse] has not run. *)
Theorem service_mode_routes_to_service_channel env w tr msgID seqNo obj :
  serviceModeActivated w = true ->
  transport w = Some tr ->
  transport_ReadMsg env (tick w) = ReadMessage (mkCommon msgID seqNo (DecodesTo obj)) ->
  readMsg env w
  = Ret None (set_serviceChannel (serviceChannel w ++ [obj]) (set_tick (S (tick w)) w)).
Proof.
  intros Hsm Htr Hread. unfold readMsg, bind, get, ask. rewrite Htr, Hread. cbn.
  rewrite Hsm. reflexivity.
Qed.

(** ** Sending and reconnecting *)

Section Sending.

Variable env : Env.

Lemma next_msg_id_fresh now last : last < next_msg_id now last.
Proof.
  unfold next_msg_id.
  destruct (Z.ltb_spec last (Z.lor (Z.shiftl now.1 32) (Z.land now.2 4294967292)));
    lia.
Qed.

Lemma sendPacket_ok data w :
  transport_WriteMsg env (S (tick w)) = None ->
  sendPacket env data w = Ret (inr (nextChan w)) (written env data w).
Proof.
  intros H. unfold sendPacket, bind, ask, get, modify, emit, ret. world_simpl.
  rewrite H. unfold written, registered. same_world.
Qed.

Lemma sendPacket_failed data w e :
  transport_WriteMsg env (S (tick w)) = Some e ->
  sendPacket env data w = Ret (inl e) (failed env data w).
Proof.
  intros H. unfold sendPacket, bind, ask, get, modify, emit, ret. world_simpl.
  rewrite H. unfold failed, registered. same_world.
Qed.

Lemma InvokeRequestWithoutUpdate_eq data w :
  exists err, InvokeRequestWithoutUpdate env data w = Ret err (sent env data w).
Proof.
  unfold InvokeRequestWithoutUpdate, bind, sent.
  destruct (transport_WriteMsg env (S (tick w))) as [e|] eqn:E.
  - rewrite (sendPacket_failed _ _ _ E). eexists. reflexivity.
  - rewrite (sendPacket_ok _ _ E). eexists. reflexivity.
Qed.

Lemma Reconnect_with_key w c0 :
  stopRoutines w = Some c0 ->
  encrypted w = true ->
  Reconnect env false w
  = Ret (Wrap (option_map (fun e => errors_Wrap e "creating transport")
                 (transport_NewTransport env (tick w)))
           "recreating connection")
      (reconnected env c0 w).
Proof.
  intros Hstop Henc. unfold Reconnect, reconnected.
  rewrite (bind_Ret _ _ _ _ _ (Disconnect_eq w c0 Hstop)).
  unfold redialled, bind at 1, log_if, ret.
  unfold CreateConnection, connect, startReadingResponses, bind, get, modify,
    ask, emit, log_if, ret. cbn.
  destruct (transport_NewTransport env (tick w)) as [e|]; cbn.
  - lazymatch goal with
    | |- context [InvokeRequestWithoutUpdate env ?d ?w1] =>
        destruct (InvokeRequestWithoutUpdate_eq d w1) as [err E]
    end.
    rewrite E. reflexivity.
  - rewrite Henc. cbn.
    lazymatch goal with
    | |- context [InvokeRequestWithoutUpdate env ?d ?w1] =>
        destruct (InvokeRequestWithoutUpdate_eq d w1) as [err E]
    end.
    rewrite E. unfold sent, written, failed, registered, id_from. world_simpl.
    destruct (transport_WriteMsg env (S (S (tick w)))); same_world;
      rewrite <- !app_assoc; reflexivity.
Qed.

(** What [Reconnect false] does to a session that has a key, field by
    field: the old context is cancelled and a new one made, one ping is
    sent under a fresh id with its own fresh channel, and neither the
    session state nor any channel that existed is touched. *)
Lemma Reconnect_effects w c0 :
  stopRoutines w = Some c0 ->
  encrypted w = true ->
  exists err w' evs,
    Reconnect env false w = Ret err w'
    /\ (err = None <-> transport_NewTransport env (tick w) = None)
    /\ trace w' = (trace w ++ evs)%list
    /\ Forall (fun e => match e with
                        | EvConnected _ | EvStartReading _ => True
                        | EvWrite _ d | EvWriteFailed _ d => d = PingParams 123456789
                        | _ => False
                        end) evs
    /\ cancelled w' = c0 :: cancelled w
    /\ stopRoutines w' = Some (nextCtx w)
    /\ encrypted w' = true
    /\ memorySession w' = memorySession w
    /\ current_session w' = current_session w
    /\ storage w' = storage w
    /\ lastMessageID w < lastMessageID w'
    /\ responseChannels w' = <[lastMessageID w' := nextChan w]> (responseChannels w)
    /\ chans w' = <[nextChan w := mkChan [] false]> (chans w)
    /\ nextChan w' = S (nextChan w)
    /\ serviceChannel w' = serviceChannel w.
Proof.
  intros Hstop Henc. rewrite (Reconnect_with_key w c0 Hstop Henc).
  unfold reconnected, sent, written, failed, registered, redialled, id_from,
    current_session.
  destruct (transport_NewTransport env (tick w)) as [e|],
           (transport_WriteMsg env _) as [e'|];
    eexists _, _, _; (split; [reflexivity |]); world_simpl.
  1,2: split; [split; discriminate |].
  3,4: split; [split; reflexivity |].
  1,2: split; [reflexivity |].
  3,4: split; [now rewrite <- app_assoc |].
  all: split; [repeat constructor |].
  all: repeat split; try reflexivity; try assumption; apply next_msg_id_fresh.
Qed.

End Sending.

(** ** The receive loop and transport error codes *)

Section ReceiveLoop.

Variable env : Env.

(** [readMsg] turns a transport error code into an [*ErrResponseCode] and
    wraps what [processResponse] returns, so the error it hands to the loop
    never has the dynamic type [transport.ErrCode]. *)
Lemma readMsg_never_ErrCode w e w' :
  readMsg env w = Ret (Some e) w' -> forall c, e <> transport_ErrCode c.
Proof.
  unfold readMsg, bind, get, ask, modify, ret.
  destruct (transport w); [| intros [= <- _]; discriminate].
  destruct (transport_ReadMsg env (tick w)) as [err|msg].
  - destruct err; intros [= <- _]; discriminate.
  - world_simpl. destruct (serviceModeActivated w).
    + destruct (GetMsg msg); intros [= <- _]; discriminate.
    + destruct (processResponse env msg _) as [[e0|] w0| |]; cbn;
        intros [= <- _]; discriminate.
Qed.

(** C5 (the code at the failing input).  In a connected session that has a
    key, when the transport reports the code 4294966892 the loop does not
    run the handshake: [readMsg] hands the loop an [*ErrResponseCode], the
    branch for [transport.ErrCode] is passed over, and the loop reconnects
    as for any other error.  The effects of the pass contain no handshake
    and the key is the one the session had; the old context is cancelled and
    a new connection attempt has been made. *)
Theorem ErrCode_404_reconnects_without_handshake ctx w tr c0 :
  ctx ∉ cancelled w ->
  isConnected w = true ->
  transport w = Some tr ->
  stopRoutines w = Some c0 ->
  encrypted w = true ->
  transport_ReadMsg env (tick w) = ReadError (transport_ErrCode 4294966892) ->
  exists ctl w' evs,
    readLoopStep env ctx w = Ret ctl w'
    /\ trace w' = (trace w ++ evs)%list
    /\ (EvMakeAuthKey ∉ evs)
    /\ current_session w' = current_session w
    /\ (c0 ∈ cancelled w')
    /\ stopRoutines w' = Some (nextCtx w).
Proof.
  intros Hctx Hconn Htr Hstop Henc Hread.
  unfold readLoopStep, bind at 1, get. rewrite bool_decide_eq_false_2 by done.
  unfold bind at 1, get. rewrite Hconn. cbn [negb].
  unfold bind at 1.
  assert (Hmsg : readMsg env w
                 = Ret (Some (ErrResponse (mkErrResponseCode 4294966892 "" "" AnyNil)))
                     (set_tick (S (tick w)) w)).
  { unfold readMsg, bind, get, ask. now rewrite Htr, Hread. }
  rewrite Hmsg. unfold handle_read_error, bind at 1, ret.
  destruct (Reconnect_effects env (set_tick (S (tick w)) w) c0 Hstop Henc)
    as (err & w' & evs & HR & _ & Ht & Hevs & Hc & Hs & _ & _ & Hk & _).
  assert (Hno : EvMakeAuthKey ∉ evs).
  { intros Hin. rewrite Forall_forall in Hevs. now apply Hevs in Hin. }
  assert (Hno' : EvMakeAuthKey ∉ (evs ++ [EvLog "reconnecting error"])%list).
  { intros [Hin|Hin]%elem_of_app; [done |].
    apply list_elem_of_singleton in Hin. discriminate. }
  destruct (strings_Contains _ _); rewrite (bind_Ret _ _ _ _ _ HR);
    destruct err; unfold log_error, bind, emit, modify, ret;
    eexists _, _, _; (split; [reflexivity |]); world_simpl.
  1,3: split; [rewrite Ht, <- app_assoc; reflexivity |];
       split; [exact Hno' |]; split; [exact Hk |];
       split; [rewrite Hc; now left | exact Hs].
  all: split; [exact Ht |]; split; [exact Hno |]; split; [exact Hk |];
       split; [rewrite Hc; now left | exact Hs].
Qed.

End ReceiveLoop.

Lemma ErrCode_404_reconnects_without_handshake_witness :
  let env := env_with (fun _ => None)
               (fun _ => ReadError (transport_ErrCode 4294966892)) (fun _ => None) in
  ((0%nat ∉ cancelled (connected_world true))
   /\ transport_ReadMsg env (tick (connected_world true))
      = ReadError (transport_ErrCode 4294966892))
  /\ exists ctl w', readLoopStep env 0%nat (connected_world true) = Ret ctl w'
                    /\ stopRoutines w' = Some 1%nat.
Proof.
  intros env. split; [split; [apply not_elem_of_nil | reflexivity] |].
  destruct (ErrCode_404_reconnects_without_handshake env 0%nat
              (connected_world true) 0%nat 0%nat)
    as (ctl & w' & evs & E & _ & _ & _ & _ & Hs);
    [apply not_elem_of_nil | reflexivity ..|].
  exists ctl, w'. split; assumption.
Defined.

(** ** The request multiplexer *)

Section Multiplexer.

Variable env : Env.

(** Receiving on an open, empty channel takes the next arrival. *)
Lemma recv_waits resp w :
  chans w !! resp = Some (mkChan [] false) ->
  recv env resp w = Ret (arrival env (tick w)) (set_tick (S (tick w)) w).
Proof. intros H. unfold recv. now rewrite H. Qed.

(** Receiving on a channel that holds something takes it. *)
Lemma recv_takes resp w o rest cl :
  chans w !! resp = Some (mkChan (o :: rest) cl) ->
  recv env resp w
  = Ret (Some o) (set_chans (<[resp := mkChan rest cl]> (chans w)) w).
Proof. intros H. unfold recv. now rewrite H. Qed.

(** A request whose write succeeds waits on its own fresh channel. *)
Lemma makeRequest_written fuel data w :
  transport_WriteMsg env (S (tick w)) = None ->
  makeRequest env (S fuel) data w
  = handle_response env (makeRequest env fuel data)
      (arrival env (S (S (tick w)))) (answered env data w).
Proof.
  intros Hw. cbn [makeRequest].
  rewrite (bind_Ret _ _ _ _ _ (sendPacket_ok env data w Hw)).
  unfold await_response.
  rewrite (bind_Ret _ _ _ (arrival env (S (S (tick w)))) (answered env data w));
    [reflexivity |].
  rewrite recv_waits.
  - unfold answered, written, registered. world_simpl. same_world.
  - unfold written, registered. world_simpl. apply lookup_insert_eq.
Qed.

(** Ids only grow: the next packet after one sent from [w] gets a larger id. *)
Lemma id_from_grows w w' :
  lastMessageID w' = id_from env w -> id_from env w < id_from env w'.
Proof. intros H. unfold id_from at 2. rewrite H. apply next_msg_id_fresh. Qed.

Lemma sendPacket_registers data w :
  exists r w' ev,
    sendPacket env data w = Ret r w'
    /\ lastMessageID w' = id_from env w
    /\ responseChannels w' !! id_from env w = Some (nextChan w)
    /\ chans w' !! nextChan w = Some (mkChan [] false)
    /\ trace w' = (trace w ++ [ev])%list
    /\ (ev = EvWrite (id_from env w) data \/ ev = EvWriteFailed (id_from env w) data).
Proof.
  destruct (transport_WriteMsg env (S (tick w))) as [e|] eqn:E.
  - eexists _, _, _. split; [apply (sendPacket_failed env data w e E) |].
    unfold failed, registered. world_simpl.
    repeat split; try apply lookup_insert_eq. now right.
  - eexists _, _, _. split; [apply (sendPacket_ok env data w E) |].
    unfold written, registered. world_simpl.
    repeat split; try apply lookup_insert_eq. now left.
Qed.

(** C2 (the code at the failing input).  When the write of a request
    succeeds and the response that arrives is an [RpcError], [makeRequest]
    looks at the message of the native error.  If it contains [FLOOD_WAIT_]
    (anywhere, not only in front), the additional information is read as
    an integer by an unchecked type assertion: when it is an integer [n],
    [makeRequest] sleeps [n] seconds and calls itself on the same object, and
    the packet it then sends is registered under a new id, larger than the
    first; when it is anything else the assertion panics, and the error is
    not returned to the caller.  If the message does not contain
    [FLOOD_WAIT_], the native error is returned to the caller. *)
Theorem flood_wait_asserts_an_integer fuel data w code message :
  transport_WriteMsg env (S (tick w)) = None ->
  arrival env (S (S (tick w))) = Some (RpcError code message) ->
  let realErr := RpcErrorToNative env code message in
  (forall n,
      strings_Contains (Message realErr) "FLOOD_WAIT_" = true ->
      AdditionalInfo realErr = AnyInt n ->
      let w2 :=
        set_trace (trace (answered env data w)
                     ++ [EvLog "Flood wait detected"; EvSleep n])
          (answered env data w) in
      makeRequest env (S fuel) data w = makeRequest env fuel data w2
      /\ lastMessageID w2 = id_from env w
      /\ id_from env w < id_from env w2
      /\ exists r w3 ev,
           sendPacket env data w2 = Ret r w3
           /\ responseChannels w3 !! id_from env w2 = Some (nextChan w2)
           /\ trace w3 = (trace w2 ++ [ev])%list
           /\ (ev = EvWrite (id_from env w2) data
               \/ ev = EvWriteFailed (id_from env w2) data))
  /\ (strings_Contains (Message realErr) "FLOOD_WAIT_" = true ->
      (forall n, AdditionalInfo realErr <> AnyInt n) ->
      makeRequest env (S fuel) data w
      = Panic "interface conversion: interface {} is not int" (answered env data w))
  /\ (strings_Contains (Message realErr) "FLOOD_WAIT_" = false ->
      makeRequest env (S fuel) data w
      = Ret (None, Some (ErrResponse realErr)) (answered env data w)).
Proof.
  intros Hw Ha realErr. rewrite (makeRequest_written fuel data w Hw), Ha.
  unfold handle_response. fold realErr. split; [| split].
  - intros n Hc Hn. rewrite Hc, Hn.
    set (w2 := set_trace _ (answered env data w)).
    assert (Hlast : lastMessageID w2 = id_from env w) by reflexivity.
    split; [| split; [exact Hlast | split; [now apply id_from_grows |]]].
    + unfold bind, emit, modify, ret.
      apply (f_equal (makeRequest env fuel data)). subst w2.
      apply World_eq; world_simpl; try reflexivity.
      now rewrite <- app_assoc.
    + destruct (sendPacket_registers data w2) as (r & w3 & ev & E & _ & Hr & _ & Ht & Hev).
      now exists r, w3, ev.
  - intros Hc Hno. rewrite Hc.
    destruct (AdditionalInfo realErr) as [|n|t]; [reflexivity | | reflexivity].
    now destruct (Hno n).
  - intros Hc. now rewrite Hc.
Qed.

(** A request whose write fails on a closed connection reconnects, and
    what it does next depends on whether that worked. *)
Lemma makeRequest_failed_write fuel data w e :
  transport_WriteMsg env (S (tick w)) = Some e ->
  is_closed_pipe env e = true ->
  makeRequest env (S fuel) data w
  = (err' <- Reconnect env false ;;
     match err' with
     | Some e0 =>
         _ <- emit (EvLog "Reconnecting error") ;;
         ret (None, Some (errors_Wrap e0 "reconnecting"))
     | None => makeRequest env fuel data
     end)
      (set_trace
         (trace (failed env data w) ++ [EvLog "Connection Pipe Broken. Reconnecting"])
         (failed env data w)).
Proof.
  intros Hw Hpipe. cbn [makeRequest].
  rewrite (bind_Ret _ _ _ _ _ (sendPacket_failed env data w e Hw)).
  rewrite Hpipe.
  rewrite (bind_Ret _ _ _ tt _
             (eq_refl : emit (EvLog "Connection Pipe Broken. Reconnecting")
                          (failed env data w) = Ret tt _)).
  reflexivity.
Qed.

(** C3 (amended).  In a connected session with a key, when the write of a
    request fails and the text of the error contains "use of closed network
    connection" or "transport is closed", [makeRequest] reconnects once
    (the old context is cancelled, a new one is made, a ping is sent).  If
    the reconnect fails, its error is returned and the request is not sent
    again.  If it succeeds, [makeRequest] calls itself on the same object in
    a session that is again connected with a key, so a further failure is
    handled in the same way; when the next write succeeds and a response
    that is neither an [RpcError] nor the sentinel arrives, the response is
    returned and the request has been written once.  A write error of
    another kind is returned at once. *)
Theorem closed_pipe_reconnects_and_retries fuel data w c0 e :
  stopRoutines w = Some c0 ->
  encrypted w = true ->
  transport_WriteMsg env (S (tick w)) = Some e ->
  let w1 := piped env data c0 w in
  (is_closed_pipe env e = true ->
     cancelled w1 = c0 :: cancelled w
     /\ stopRoutines w1 = Some (nextCtx w)
     /\ encrypted w1 = true
     /\ id_from env w < lastMessageID w1
     /\ (forall e', transport_NewTransport env (S (S (tick w))) = Some e' ->
           makeRequest env (S fuel) data w
           = Ret (None,
                  Some (errors_Wrap
                          (errors_Wrap (errors_Wrap e' "creating transport")
                             "recreating connection") "reconnecting"))
               (set_trace (trace w1 ++ [EvLog "Reconnecting error"]) w1))
     /\ (transport_NewTransport env (S (S (tick w))) = None ->
           makeRequest env (S fuel) data w = makeRequest env fuel data w1
           /\ forall o,
                transport_WriteMsg env (S (tick w1)) = None ->
                arrival env (S (S (tick w1))) = Some o ->
                (forall c m, o <> RpcError c m) -> o <> errorSessionConfigsChanged ->
                makeRequest env (S (S fuel)) data w
                = Ret (UnwrapNativeTypes env (Some o), None) (answered env data w1)
                  /\ exists evs,
                       trace (answered env data w1)
                       = (trace w ++ EvWriteFailed (id_from env w) data :: evs
                            ++ [EvWrite (id_from env w1) data])%list
                       /\ Forall (fun ev => match ev with
                                            | EvLog _ | EvConnected _
                                            | EvStartReading _ => True
                                            | EvWrite _ d | EvWriteFailed _ d =>
                                                d = PingParams 123456789
                                            | _ => False
                                            end) evs))
  /\ (is_closed_pipe env e = false ->
      makeRequest env (S fuel) data w
      = Ret (None, Some (errors_Wrap e "sending packet")) (failed env data w)).
Proof.
  intros Hstop Henc Hw w1. split.
  - intros Hpipe.
    pose (w0 := set_trace
                 (trace (failed env data w)
                    ++ [EvLog "Connection Pipe Broken. Reconnecting"])
                 (failed env data w)).
    assert (Hstop0 : stopRoutines w0 = Some c0).
    { unfold w0, failed, registered. world_simpl. exact Hstop. }
    assert (Henc0 : encrypted w0 = true).
    { unfold w0, failed, registered. world_simpl. exact Henc. }
    assert (Htick0 : tick w0 = S (S (tick w))).
    { unfold w0, failed, registered. world_simpl. reflexivity. }
    assert (Hlast0 : lastMessageID w0 = id_from env w).
    { unfold w0, failed, registered. world_simpl. reflexivity. }
    assert (Hcan0 : cancelled w0 = cancelled w).
    { unfold w0, failed, registered. world_simpl. reflexivity. }
    assert (Hctx0 : nextCtx w0 = nextCtx w).
    { unfold w0, failed, registered. world_simpl. reflexivity. }
    assert (Htr0 : trace w0 = (trace w ++ [EvWriteFailed (id_from env w) data;
                      EvLog "Connection Pipe Broken. Reconnecting"])%list).
    { unfold w0, failed, registered. world_simpl. now rewrite <- app_assoc. }
    pose proof (Reconnect_with_key env w0 c0 Hstop0 Henc0) as HRk.
    destruct (Reconnect_effects env w0 c0 Hstop0 Henc0)
      as (err & w1' & evs & HR & Herr & Ht & Hevs & Hc & Hs & He & _ & _ & _
          & Hid & _).
    rewrite HRk in HR. injection HR as _ <-.
    change (reconnected env c0 w0) with w1 in *.
    rewrite Htick0 in HRk. rewrite Hcan0 in Hc. rewrite Hctx0 in Hs.
    rewrite Hlast0 in Hid. rewrite Htr0 in Ht. clear Herr.
    pose proof (makeRequest_failed_write fuel data w e Hw Hpipe) as Hstep.
    pose proof (makeRequest_failed_write (S fuel) data w e Hw Hpipe) as Hstep2.
    fold w0 in Hstep, Hstep2.
    split; [exact Hc |]. split; [exact Hs |]. split; [exact He |].
    split; [exact Hid |]. split.
    + intros e' Hnew. rewrite Hstep, (bind_Ret _ _ _ _ _ HRk), Hnew. reflexivity.
    + intros Hnew. split.
      * rewrite Hstep, (bind_Ret _ _ _ _ _ HRk), Hnew. reflexivity.
      * intros o Hw' Ha Hrpc Hsent. split.
        -- rewrite Hstep2, (bind_Ret _ _ _ _ _ HRk), Hnew. cbn [Wrap option_map].
           rewrite (makeRequest_written fuel data w1 Hw'), Ha.
           destruct o; try reflexivity;
             [now destruct (Hrpc ErrorCode ErrorMessage) | done].
        -- exists (EvLog "Connection Pipe Broken. Reconnecting" :: evs).
           split.
           ++ unfold answered, written. world_simpl. rewrite Ht.
              rewrite <- !app_assoc. reflexivity.
           ++ constructor; [exact I |].
              eapply Forall_impl; [exact Hevs |]. now intros [].
  - intros Hpipe. cbn [makeRequest].
    rewrite (bind_Ret _ _ _ _ _ (sendPacket_failed env data w e Hw)).
    now rewrite Hpipe.
Qed.

End Multiplexer.

Lemma flood_wait_asserts_an_integer_witness :
  let env := quiet_env (fun _ => None) marker_inside_then_pong in
  (transport_WriteMsg env (S (tick (connected_world true))) = None
   /\ arrival env (S (S (tick (connected_world true))))
      = Some (RpcError 420 "X_FLOOD_WAIT_Y")
   /\ strings_HasPrefix "X_FLOOD_WAIT_Y" "FLOOD_WAIT_" = false
   /\ strings_Contains (Message (RpcErrorToNative env 420 "X_FLOOD_WAIT_Y"))
        "FLOOD_WAIT_" = true
   /\ AdditionalInfo (RpcErrorToNative env 420 "X_FLOOD_WAIT_Y") = AnyNil)
  /\ makeRequest env 2 get_dialogs (connected_world true)
     = Panic "interface conversion: interface {} is not int"
         (answered env get_dialogs (connected_world true)).
Proof.
  intros env. split; [repeat split |].
  destruct (flood_wait_asserts_an_integer env 1 get_dialogs
              (connected_world true) 420 "X_FLOOD_WAIT_Y" eq_refl eq_refl)
    as (_ & H & _).
  apply H; [reflexivity | discriminate].
Defined.

(** The scenario of the spec: the response to the first packet is
    [FLOOD_WAIT_3], whose native error carries the integer 3; the request is
    sent again after a sleep of three seconds, under a larger id, and the
    caller gets the second response. *)
Lemma flood_wait_3_then_pong :
  let env := quiet_env (fun _ => None) flood_then_pong in
  returned (makeRequest env 2 get_dialogs (connected_world true))
  = Some (Some Pong, None)
  /\ final trace (makeRequest env 2 get_dialogs (connected_world true))
     = Some [EvWrite 7301444403200000000 get_dialogs;
             EvLog "Flood wait detected"; EvSleep 3;
             EvWrite 7301444403200000004 get_dialogs].
Proof. vm_compute. repeat split. Qed.

Lemma closed_pipe_reconnects_and_retries_witness :
  let env := quiet_env closed_once (fun _ => Some Pong) in
  (stopRoutines (connected_world true) = Some 0%nat
   /\ encrypted (connected_world true) = true
   /\ transport_WriteMsg env (S (tick (connected_world true)))
      = Some (errors_New "write tcp: use of closed network connection"))
  /\ returned (makeRequest env 2 get_dialogs (connected_world true))
     = Some (Some Pong, None).
Proof.
  intros env. split; [repeat split |].
  destruct (closed_pipe_reconnects_and_retries env 0 get_dialogs
              (connected_world true) 0%nat
              (errors_New "write tcp: use of closed network connection")
              eq_refl eq_refl eq_refl) as [H _].
  destruct (H eq_refl) as (_ & _ & _ & _ & _ & H2).
  destruct (H2 eq_refl) as [_ H3].
  destruct (H3 Pong) as [E _]; [vm_compute; reflexivity .. | discriminate
                               | discriminate |].
  rewrite E. reflexivity.
Defined.

(** C3 as stated fails.  When the network is down the reconnect fails and
    the request is not sent again: the caller gets the error and the request
    has never been written.  When the write fails on a closed connection
    twice in a row there are two reconnects and the request is sent three
    times. *)
Lemma closed_pipe_retry_is_not_exactly_once :
  let down := network_down (quiet_env (fun _ => None) (fun _ => Some Pong)) in
  let flaky := quiet_env closed_twice (fun _ => Some Pong) in
  (returned (makeRequest down 5 get_dialogs (connected_world true))
   = Some (None,
           Some (errors_Wrap
                   (errors_Wrap
                      (errors_Wrap (errors_New "dial tcp: connection refused")
                         "creating transport") "recreating connection")
                   "reconnecting"))
   /\ final trace (makeRequest down 5 get_dialogs (connected_world true))
      = Some [EvWriteFailed 7301444403200000000 get_dialogs;
              EvLog "Connection Pipe Broken. Reconnecting";
              EvWriteFailed 7301444403200000004 (PingParams 123456789);
              EvLog "Reconnecting error"])
  /\ (returned (makeRequest flaky 5 get_dialogs (connected_world true))
      = Some (Some Pong, None)
      /\ final cancelled (makeRequest flaky 5 get_dialogs (connected_world true))
         = Some [1%nat; 0%nat]
      /\ final trace (makeRequest flaky 5 get_dialogs (connected_world true))
         = Some [EvWriteFailed 7301444403200000000 get_dialogs;
                 EvLog "Connection Pipe Broken. Reconnecting";
                 EvConnected 1; EvStartReading 1;
                 EvWrite 7301444403200000004 (PingParams 123456789);
                 EvWriteFailed 7301444403200000008 get_dialogs;
                 EvLog "Connection Pipe Broken. Reconnecting";
                 EvConnected 2; EvStartReading 2;
                 EvWrite 7301444403200000012 (PingParams 123456789);
                 EvWrite 7301444403200000016 get_dialogs]).
Proof. vm_compute. repeat split. Qed.

Lemma service_mode_routes_to_service_channel_witness :
  let msg := mkCommon 100 1 (DecodesTo (RpcResult 8 Pong)) in
  let env := env_with (fun _ => None) (fun _ => ReadMessage msg) (fun _ => None) in
  let w := set_serviceModeActivated true (busy_world true) in
  (serviceModeActivated w = true /\ transport w = Some 0%nat
   /\ responseChannels w !! 8 = Some 0%nat)
  /\ final serviceChannel (readMsg env w) = Some [RpcResult 8 Pong]
  /\ final chans (readMsg env w) = Some (chans w).
Proof.
  intros msg env w. split; [repeat split |].
  rewrite (service_mode_routes_to_service_channel env w 0%nat 100 1
             (RpcResult 8 Pong) eq_refl eq_refl eq_refl).
  split; reflexivity.
Defined.

(** ** Acknowledgements *)

Section Acknowledgements.

Variable env : Env.

Lemma MakeRequest_eq data w :
  MakeRequest env data w
  = Ret (MakeRequest_answer env (tick w))
      (set_tick (S (tick w)) (set_trace (trace w ++ [EvMakeRequest data]) w)).
Proof. reflexivity. Qed.


End Acknowledgements.



(** ** A new server salt *)

Section Salt.

Variable env : Env.

Lemma chan_send_open resp o w c :
  chans w !! resp = Some c ->
  closed c = false ->
  chan_send resp o w = Ret tt (set_chans (<[resp := chan_push o c]> (chans w)) w).
Proof. intros H Hc. unfold chan_send. now rewrite H, Hc. Qed.

(** The loop over the keys sends one object on the channel of each key and
    leaves every other channel alone. *)
Lemma broadcast_delivers keys : forall w,
  NoDup keys ->
  (forall k, k ∈ keys ->
     exists r c, responseChannels w !! k = Some r
                 /\ chans w !! r = Some c /\ closed c = false) ->
  (forall k1 k2 r, responseChannels w !! k1 = Some r ->
     responseChannels w !! k2 = Some r -> k1 = k2) ->
  exists h,
    broadcast keys w = Ret tt (set_chans h w)
    /\ (forall k r, k ∈ keys -> responseChannels w !! k = Some r ->
          h !! r = chan_push errorSessionConfigsChanged <$> chans w !! r)
    /\ (forall r, (forall k, k ∈ keys -> responseChannels w !! k <> Some r) ->
          h !! r = chans w !! r).
Proof.
  induction keys as [|k rest IH]; intros w Hnd Hopen Hinj.
  - exists (chans w). split; [| split].
    + cbn [broadcast]. unfold ret. apply Ret_world, World_eq; reflexivity.
    + intros k r Hin. inversion Hin.
    + reflexivity.
  - apply NoDup_cons in Hnd as [Hk Hnd].
    destruct (Hopen k) as (r & c & Hr & Hc & Hcl); [now left |].
    set (h1 := <[r := chan_push errorSessionConfigsChanged c]> (chans w)).
    assert (Hother : forall k' r', k' ∈ rest -> responseChannels w !! k' = Some r' ->
                                   r' <> r).
    { intros k' r' Hin Hr' ->. apply Hk. now rewrite (Hinj k k' r Hr Hr'). }
    destruct (IH (set_chans h1 w) Hnd) as (h & HB & Hsent & Hrest).
    { intros k' Hin. destruct (Hopen k') as (r' & c' & Hr' & Hc' & Hcl'); [now right |].
      exists r', c'. world_simpl. split; [exact Hr' |]. split; [| exact Hcl'].
      unfold h1. rewrite lookup_insert_ne; [exact Hc' |].
      intros Heq. now apply (Hother k' r' Hin Hr'). }
    { exact Hinj. }
    world_simpl_in Hsent. world_simpl_in Hrest.
    exists h. split; [| split].
    + cbn [broadcast]. unfold bind at 1, get. rewrite Hr.
      rewrite (bind_Ret _ _ _ _ _ (chan_send_open r _ w c Hc Hcl)).
      fold h1. rewrite HB. apply Ret_world, World_eq; reflexivity.
    + intros k' r' Hin Hr'. apply elem_of_cons in Hin as [->|Hin].
      * assert (r' = r) as -> by congruence.
        rewrite Hrest.
        -- unfold h1. rewrite lookup_insert_eq, Hc. reflexivity.
        -- intros k' Hin Hr''. now apply (Hother k' r Hin Hr'').
      * rewrite (Hsent k' r' Hin Hr'). unfold h1.
        rewrite lookup_insert_ne; [reflexivity |].
        intros Heq. now apply (Hother k' r' Hin Hr').
    + intros r' Hnone. rewrite Hrest.
      * unfold h1. rewrite lookup_insert_ne; [reflexivity |].
        intros <-. now apply (Hnone k (list_elem_of_here _ _)).
      * intros k' Hin. apply Hnone. now right.
Qed.

Lemma SaveSession_ok w :
  storage_Save env (tick w) = None ->
  SaveSession env w
  = Ret None
      (set_trace (trace w ++ [EvSaveSession (current_session w)])
         (set_storage (Some (current_session w)) (set_tick (S (tick w)) w))).
Proof.
  intros H. unfold SaveSession, bind, ask, get, modify, emit, ret. rewrite H.
  apply Ret_world, World_eq; reflexivity.
Qed.

Lemma SaveSession_failed w e :
  storage_Save env (tick w) = Some e ->
  SaveSession env w = Ret (Some e) (set_tick (S (tick w)) w).
Proof. intros H. unfold SaveSession, bind, ask, ret. now rewrite H. Qed.

(** After a dispatch without error, [processResponse] only adds the
    acknowledgement: the world differs in its effects and its counter. *)
Lemma processResponse_after_dispatch msgID seqNo data w w1 :
  dispatch env data w = Ret None w1 ->
  exists err t n,
    processResponse env (mkCommon msgID seqNo (DecodesTo data)) w
    = Ret err (set_tick n (set_trace t w1)).
Proof.
  intros Hd. cbn [processResponse]. rewrite (bind_Ret _ _ _ _ _ Hd).
  destruct (negb (Z.land seqNo 1 =? 0)).
  - rewrite (bind_Ret _ _ _ _ _ (MakeRequest_eq env (MsgsAck [msgID]) w1)).
    eexists _, _, _. unfold ret. apply Ret_world, World_eq; reflexivity.
  - exists None, (trace w1), (tick w1). unfold ret.
    apply Ret_world, World_eq; reflexivity.
Qed.

Lemma Keys_spec w k : k ∈ Keys w <-> is_Some (responseChannels w !! k).
Proof.
  unfold Keys. rewrite list_elem_of_fmap. split.
  - intros ([k' r] & -> & Hin). apply elem_of_map_to_list in Hin. now exists r.
  - intros [r Hr]. exists (k, r). split; [reflexivity |].
    now apply elem_of_map_to_list.
Qed.

Lemma Keys_NoDup w : NoDup (Keys w).
Proof. apply NoDup_fst_map_to_list. Qed.

(** The dispatch of a new salt in a connected session with a key, when the
    session is memory-only or the store accepts it. *)
Lemma dispatch_BadServerSalt salt w c0 :
  stopRoutines w = Some c0 ->
  encrypted w = true ->
  pending_ok w ->
  (memorySession w = false -> storage_Save env (tick w) = None) ->
  exists w1 h,
    dispatch env (BadServerSalt salt) w = Ret None (set_chans h w1)
    /\ serverSalt w1 = salt
    /\ storage w1
       = (if memorySession w then storage w
          else Some (mkSession (authKey w) (authKeyHash w) salt (Addr w) (appID w)))
    /\ cancelled w1 = c0 :: cancelled w
    /\ stopRoutines w1 = Some (nextCtx w)
    /\ lastMessageID w < lastMessageID w1
    /\ (forall k r, responseChannels w !! k = Some r ->
          responseChannels w1 !! k = Some r
          /\ h !! r = chan_push errorSessionConfigsChanged <$> chans w !! r).
Proof.
  intros Hstop Henc [Hpend Hinj] Hsave.
  set (wa := set_serverSalt salt w).
  assert (exists wb,
            (err <- (if memorySession w then ret None else SaveSession env) ;;
             match err with
             | Some e => ret (Some (errors_Wrap e "saving session"))
             | None =>
                 _ <- Reconnect env false ;;
                 keys <- get Keys ;;
                 _ <- broadcast keys ;;
                 ret None
             end) wa
            = (_ <- Reconnect env false ;;
               keys <- get Keys ;;
               _ <- broadcast keys ;;
               ret None) wb
            /\ stopRoutines wb = Some c0 /\ encrypted wb = true
            /\ serverSalt wb = salt
            /\ current_session wb
               = mkSession (authKey w) (authKeyHash w) salt (Addr w) (appID w)
            /\ storage wb
               = (if memorySession w then storage w
                  else Some (mkSession (authKey w) (authKeyHash w) salt (Addr w)
                               (appID w)))
            /\ cancelled wb = cancelled w /\ nextCtx wb = nextCtx w
            /\ lastMessageID wb = lastMessageID w
            /\ nextChan wb = nextChan w
            /\ responseChannels wb = responseChannels w
            /\ chans wb = chans w) as (wb & Hrun & Hstopb & Hencb & Hsaltb & Hsessb
                                      & Hstoreb & Hcanb & Hctxb & Hlastb & Hnextb
                                      & Hregb & Hchb).
  { destruct (memorySession w) eqn:Hmem.
    - exists wa. split; [reflexivity |]. unfold wa, current_session. world_simpl.
      repeat split; assumption.
    - eexists. split.
      + rewrite (bind_Ret _ _ _ _ _ (SaveSession_ok wa (Hsave eq_refl))).
        reflexivity.
      + unfold wa, current_session. world_simpl. repeat split; assumption. }
  destruct (Reconnect_effects env wb c0 Hstopb Hencb)
    as (err & wc & evs & HR & _ & _ & _ & Hcanc & Hstopc & _ & _ & Hsessc
        & Hstorec & Hlastc & Hregc & Hchc & _ & _).
  assert (HfreshK : forall k r, responseChannels w !! k = Some r ->
                      lastMessageID wc <> k).
  { intros k r Hr. destruct (Hpend k r Hr) as (Hle & _). lia. }
  assert (HfreshR : forall k r, responseChannels w !! k = Some r ->
                      nextChan wb <> r).
  { intros k r Hr. destruct (Hpend k r Hr) as (_ & Hlt & _). rewrite Hnextb. lia. }
  assert (Hold : forall k r, responseChannels w !! k = Some r ->
                   responseChannels wc !! k = Some r).
  { intros k r Hr. rewrite Hregc, Hregb.
    rewrite lookup_insert_ne; [exact Hr |]. now apply (HfreshK k r). }
  destruct (broadcast_delivers (Keys wc) wc (Keys_NoDup wc)) as (h & HB & Hsent & _).
  { intros k [r Hr]%Keys_spec. exists r. rewrite Hchc, Hchb.
    pose proof Hr as Hr0.
    rewrite Hregc, Hregb in Hr. apply lookup_insert_Some in Hr as [[_ <-]|[Hne Hr]].
    - exists (mkChan [] false).
      split; [exact Hr0 | split; [apply lookup_insert_eq | reflexivity]].
    - destruct (Hpend k r Hr) as (_ & _ & c & Hc & Hcl).
      exists c. split; [exact Hr0 | split; [| exact Hcl]].
      rewrite lookup_insert_ne; [exact Hc | now apply (HfreshR k r)]. }
  { intros k1 k2 r. rewrite Hregc, Hregb.
    intros [[<- <-]|[Hne1 H1]]%lookup_insert_Some [[<- E]|[Hne2 H2]]%lookup_insert_Some.
    - reflexivity.
    - now destruct (HfreshR k2 _ H2).
    - subst r. now destruct (HfreshR k1 _ H1).
    - exact (Hinj k1 k2 r H1 H2). }
  exists wc, h. split; [| repeat split].
  - change (dispatch env (BadServerSalt salt) w)
      with ((_ <- modify (set_serverSalt salt) ;;
             mem <- get memorySession ;;
             err <- (if mem then ret None else SaveSession env) ;;
             match err with
             | Some e => ret (Some (errors_Wrap e "saving session"))
             | None =>
                 _ <- Reconnect env false ;;
                 keys <- get Keys ;;
                 _ <- broadcast keys ;;
                 ret None
             end) w).
    rewrite (bind_Ret (modify (set_serverSalt salt)) _ w tt wa eq_refl).
    rewrite (bind_Ret (get memorySession) _ wa (memorySession w) wa eq_refl).
    rewrite Hrun, (bind_Ret _ _ _ _ _ HR).
    rewrite (bind_Ret (get Keys) _ wc (Keys wc) wc eq_refl).
    rewrite (bind_Ret _ _ _ _ _ HB). reflexivity.
  - change (serverSalt wc) with (Salt (current_session wc)).
    now rewrite Hsessc, Hsessb.
  - now rewrite Hstorec.
  - now rewrite Hcanc, Hcanb.
  - now rewrite Hstopc, Hctxb.
  - now rewrite <- Hlastb.
  - now apply Hold.
  - rewrite (Hsent k r).
    + rewrite Hchc, Hchb. rewrite lookup_insert_ne; [reflexivity |].
      now apply (HfreshR k r).
    + apply Keys_spec. exists r. now apply Hold.
    + now apply Hold.
Qed.

Lemma dispatch_BadServerSalt_save_fails salt w e :
  memorySession w = false ->
  storage_Save env (tick w) = Some e ->
  dispatch env (BadServerSalt salt) w
  = Ret (Some (errors_Wrap e "saving session"))
      (set_tick (S (tick w)) (set_serverSalt salt w)).
Proof.
  intros Hmem Hsave.
  change (dispatch env (BadServerSalt salt) w)
    with ((_ <- modify (set_serverSalt salt) ;;
           mem <- get memorySession ;;
           err <- (if mem then ret None else SaveSession env) ;;
           match err with
           | Some e => ret (Some (errors_Wrap e "saving session"))
           | None =>
               _ <- Reconnect env false ;;
               keys <- get Keys ;;
               _ <- broadcast keys ;;
               ret None
           end) w).
  rewrite (bind_Ret (modify (set_serverSalt salt)) _ w tt (set_serverSalt salt w)
             eq_refl).
  rewrite (bind_Ret (get memorySession) _ (set_serverSalt salt w) (memorySession w)
             (set_serverSalt salt w) eq_refl).
  rewrite Hmem.
  rewrite (bind_Ret _ _ _ _ _ (SaveSession_failed (set_serverSalt salt w) e Hsave)).
  unfold ret. apply Ret_world, World_eq; reflexivity.
Qed.

(** C4 (amended).  In a connected session with a key whose registry is in
    order, processing a [BadServerSalt] sets the server salt to the new
    salt.  If the session is memory-only or the store accepts the session,
    the session with the new salt is what is stored (nothing is stored for
    a memory-only session), the connection is remade once, and every
    request that was pending stays registered and has the sentinel appended
    to its channel, once; a [makeRequest] that was waiting on an empty
    channel then receives the sentinel and calls itself, and the packet it
    sends gets an id larger than the id it was waiting under.  If the store
    refuses, the error is returned right after the salt is set: there is no
    reconnect and nothing is sent to any channel. *)
Theorem BadServerSalt_wakes_pending_requests msgID seqNo salt w c0 :
  stopRoutines w = Some c0 ->
  encrypted w = true ->
  pending_ok w ->
  (memorySession w = true \/ storage_Save env (tick w) = None ->
   exists err w',
     processResponse env (mkCommon msgID seqNo (DecodesTo (BadServerSalt salt))) w
     = Ret err w'
     /\ serverSalt w' = salt
     /\ storage w'
        = (if memorySession w then storage w
           else Some (mkSession (authKey w) (authKeyHash w) salt (Addr w) (appID w)))
     /\ cancelled w' = c0 :: cancelled w
     /\ stopRoutines w' = Some (nextCtx w)
     /\ (forall k r c, responseChannels w !! k = Some r -> chans w !! r = Some c ->
           responseChannels w' !! k = Some r
           /\ chans w' !! r = Some (chan_push errorSessionConfigsChanged c))
     /\ (forall k r retry,
           responseChannels w !! k = Some r ->
           chans w !! r = Some (mkChan [] false) ->
           exists w'',
             await_response env retry r w' = retry w''
             /\ k < id_from env w''
             /\ chans w'' !! r = Some (mkChan [] false)))
  /\ (forall e, memorySession w = false -> storage_Save env (tick w) = Some e ->
      processResponse env (mkCommon msgID seqNo (DecodesTo (BadServerSalt salt))) w
      = Ret (Some (errors_Wrap e "saving session"))
          (set_tick (S (tick w)) (set_serverSalt salt w))).
Proof.
  intros Hstop Henc Hok. split.
  - intros Hsave.
    destruct (dispatch_BadServerSalt salt w c0 Hstop Henc Hok)
      as (w1 & h & Hd & Hsalt & Hstore & Hcan & Hstop1 & Hlast & Hpend).
    { intros Hmem. destruct Hsave as [Hm|Hs]; [congruence | exact Hs]. }
    destruct (processResponse_after_dispatch msgID seqNo _ w _ Hd)
      as (err & t & n & HP).
    exists err, (set_tick n (set_trace t (set_chans h w1))).
    split; [exact HP |]. world_simpl.
    split; [exact Hsalt |]. split; [exact Hstore |]. split; [exact Hcan |].
    split; [exact Hstop1 |]. split.
    + intros k r c Hr Hc. destruct (Hpend k r Hr) as [Hr1 Hh].
      split; [exact Hr1 |]. now rewrite Hh, Hc.
    + intros k r retry Hr Hc. destruct (Hpend k r Hr) as [_ Hh].
      rewrite Hc in Hh. cbn in Hh.
      set (w' := set_tick n (set_trace t (set_chans h w1))).
      exists (set_chans (<[r := mkChan [] false]> (chans w')) w').
      split; [| split].
      * unfold await_response.
        rewrite (bind_Ret _ _ _ _ _
                   (recv_takes env r w' errorSessionConfigsChanged [] false Hh)).
        reflexivity.
      * unfold id_from, w'. world_simpl.
        destruct Hok as [Hle _]. destruct (Hle k r Hr) as [Hk _].
        pose proof (next_msg_id_fresh (clock env n) (lastMessageID w1)). lia.
      * unfold w'. world_simpl. apply lookup_insert_eq.
  - intros e Hmem Hsave. cbn [processResponse].
    now rewrite (bind_Ret _ _ _ _ _ (dispatch_BadServerSalt_save_fails salt w e Hmem Hsave)).
Qed.

End Salt.

(** The registry of the session with two requests in flight is in order. *)
Lemma pending_ok_busy_world mem : pending_ok (busy_world mem).
Proof.
  unfold pending_ok, busy_world. world_simpl. split.
  - intros k r [[<- <-]|[_ [[<- <-]|[_ H]]%lookup_insert_Some]]%lookup_insert_Some.
    + split; [lia |]. split; [lia |]. eexists. split; reflexivity.
    + split; [lia |]. split; [lia |]. eexists. split; reflexivity.
    + rewrite lookup_empty in H. discriminate.
  - intros k1 k2 r H1 H2.
    apply lookup_insert_Some in H1 as [[<- <-]|[_ [[<- <-]|[_ H1]]%lookup_insert_Some]];
      apply lookup_insert_Some in H2 as [[<- E]|[_ [[<- E]|[_ H2]]%lookup_insert_Some]];
      try reflexivity; try discriminate;
      rewrite lookup_empty in *; discriminate.
Qed.

Lemma BadServerSalt_wakes_pending_requests_witness :
  let env := quiet_env (fun _ => None) (fun _ => None) in
  let msg := mkCommon 100 2 (DecodesTo (BadServerSalt 99)) in
  (stopRoutines (busy_world false) = Some 0%nat
   /\ encrypted (busy_world false) = true
   /\ pending_ok (busy_world false)
   /\ storage_Save env (tick (busy_world false)) = None)
  /\ final serverSalt (processResponse env msg (busy_world false)) = Some 99
  /\ final (fun w => buf <$> chans w !! 0%nat)
       (processResponse env msg (busy_world false))
     = Some (Some [errorSessionConfigsChanged]).
Proof.
  intros env msg.
  split; [split; [reflexivity | split; [reflexivity |
          split; [apply pending_ok_busy_world | reflexivity]]] |].
  destruct (BadServerSalt_wakes_pending_requests env 100 2 99 (busy_world false)
              0%nat eq_refl eq_refl (pending_ok_busy_world false))
    as [H _].
  destruct (H (or_intror eq_refl)) as (err & w' & HP & Hsalt & _ & _ & _ & Hch & _).
  unfold msg. rewrite HP. cbn [final]. split; [now rewrite Hsalt |].
  destruct (Hch 8 0%nat (mkChan [] false) eq_refl eq_refl) as [_ Hc].
  now rewrite Hc.
Defined.

(** C4 as stated fails: when the store refuses the session, the salt is
    set but the session is not persisted, the connection is not remade and
    the pending requests are sent nothing. *)
Lemma BadServerSalt_store_refuses :
  let env := store_refuses (quiet_env (fun _ => None) (fun _ => None)) in
  let msg := mkCommon 100 2 (DecodesTo (BadServerSalt 99)) in
  memorySession (busy_world false) = false
  /\ responseChannels (busy_world false) !! 8 = Some 0%nat
  /\ returned (processResponse env msg (busy_world false))
     = Some (Some (errors_Wrap (errors_New "no space left on device")
                     "saving session"))
  /\ final serverSalt (processResponse env msg (busy_world false)) = Some 99
  /\ final storage (processResponse env msg (busy_world false)) = Some None
  /\ final cancelled (processResponse env msg (busy_world false)) = Some []
  /\ final trace (processResponse env msg (busy_world false)) = Some []
  /\ final (fun w => buf <$> chans w !! 0%nat)
       (processResponse env msg (busy_world false))
     = Some (Some []).
Proof. vm_compute. repeat split. Qed.

(** ** String sessions *)

Lemma read_le32_le32 n rest :
  - 2 ^ 31 <= n < 2 ^ 31 -> read_le32 (le32 n ++ rest) = Some (n, rest).
Proof.
  intros Hn. unfold le32, read_le32. cbn [app]. f_equal. f_equal.
  unfold int32_of_unsigned.
  assert (E : n mod 2 ^ 32 mod 256 + 256 * ((n mod 2 ^ 32 / 256) mod 256)
              + 65536 * ((n mod 2 ^ 32 / 65536) mod 256)
              + 16777216 * ((n mod 2 ^ 32 / 16777216) mod 256)
              = n mod 2 ^ 32).
  { pose proof (Z.mod_pos_bound n (2 ^ 32) ltac:(lia)).
    generalize dependent (n mod 2 ^ 32). intros u Hu.
    Z.to_euclidean_division_equations. lia. }
  rewrite E.
  destruct (Z.ltb_spec (n mod 2 ^ 32) (2 ^ 31)) as [Hlt|Hge].
  - destruct (Z.le_gt_cases 0 n).
    + apply Z.mod_small. lia.
    + exfalso. rewrite <- (Z.mod_add n 1 (2 ^ 32)) in Hlt by lia.
      rewrite Z.mod_small in Hlt; lia.
  - destruct (Z.le_gt_cases 0 n).
    + rewrite Z.mod_small in Hge; lia.
    + rewrite <- (Z.mod_add n 1 (2 ^ 32)) by lia. rewrite Z.mod_small; lia.
Qed.

Lemma le32_bytes n : Forall is_byte (le32 n).
Proof.
  unfold le32, is_byte. repeat constructor; apply Z.mod_pos_bound; lia.
Qed.

Lemma read_bytes_put_bytes bs rest :
  Z.of_nat (length bs) < 2 ^ 31 ->
  read_bytes (put_bytes bs ++ rest) = Some (bs, rest).
Proof.
  intros Hlen. unfold read_bytes, put_bytes. rewrite <- app_assoc.
  rewrite read_le32_le32 by lia. cbn [mbind option_bind].
  rewrite length_app.
  replace ((0 <=? Z.of_nat (length bs))
           && (Z.of_nat (length bs) <=? Z.of_nat (length bs + length rest)))
    with true by (symmetry; apply andb_true_iff; split; apply Z.leb_le; lia).
  rewrite Nat2Z.id, take_app_length, drop_app_length. reflexivity.
Qed.

Lemma string_of_bytes_of_string s : string_of_bytes (bytes_of_string s) = s.
Proof.
  unfold string_of_bytes, bytes_of_string. rewrite map_map.
  rewrite <- (string_of_list_ascii_of_string s) at 2. f_equal.
  induction (list_ascii_of_string s) as [|c l IH]; [reflexivity |].
  cbn [map]. rewrite IH, N2Z.id, ascii_N_embedding. reflexivity.
Qed.

Lemma bytes_of_string_length s :
  length (bytes_of_string s) = String.length s.
Proof.
  unfold bytes_of_string. rewrite length_map.
  induction s; cbn; congruence.
Qed.

(** Induction on lists, three elements at a time. *)
Lemma list_ind3 {A} (P : list A -> Prop) :
  P [] -> (forall a, P [a]) -> (forall a b, P [a; b]) ->
  (forall a b c l, P l -> P (a :: b :: c :: l)) ->
  forall l, P l.
Proof.
  intros H0 H1 H2 H3 l.
  enough (P l /\ (forall a, P (a :: l)) /\ (forall a b, P (a :: b :: l))) by tauto.
  induction l as [|x l (IH0 & IH1 & IH2)]; auto.
Qed.

Lemma sextets_of_bytes_sextets bs :
  Forall is_byte bs -> Forall is_sextet (sextets_of_bytes bs).
Proof.
  induction bs as [| a | a b | a b c l IH] using list_ind3; intros H.
  - constructor.
  - apply Forall_cons in H as [Ha _]. unfold is_byte in Ha. cbn.
    repeat constructor; unfold is_sextet;
      Z.to_euclidean_division_equations; lia.
  - apply Forall_cons in H as [Ha [Hb _]%Forall_cons]. unfold is_byte in *. cbn.
    repeat constructor; unfold is_sextet;
      Z.to_euclidean_division_equations; lia.
  - apply Forall_cons in H as [Ha [Hb [Hc Hl]%Forall_cons]%Forall_cons].
    unfold is_byte in *. cbn [sextets_of_bytes].
    repeat (constructor; [unfold is_sextet; Z.to_euclidean_division_equations; lia |]).
    now apply IH.
Qed.

Lemma bytes_of_sextets_of_bytes bs :
  Forall is_byte bs -> bytes_of_sextets (sextets_of_bytes bs) = Some bs.
Proof.
  induction bs as [| a | a b | a b c l IH] using list_ind3; intros H.
  - reflexivity.
  - apply Forall_cons in H as [Ha _]. unfold is_byte in Ha. cbn.
    do 2 f_equal. Z.to_euclidean_division_equations; lia.
  - apply Forall_cons in H as [Ha [Hb _]%Forall_cons]. unfold is_byte in *. cbn.
    do 2 f_equal; [| f_equal]; Z.to_euclidean_division_equations; lia.
  - apply Forall_cons in H as [Ha [Hb [Hc Hl]%Forall_cons]%Forall_cons].
    unfold is_byte in *. cbn [sextets_of_bytes bytes_of_sextets].
    rewrite (IH Hl). cbn [mbind option_bind].
    do 2 f_equal; [| f_equal; [| f_equal]];
      Z.to_euclidean_division_equations; lia.
Qed.

Lemma sextet_of_digit_of_sextet n :
  is_sextet n -> sextet_of_digit (digit_of_sextet n) = Some n.
Proof.
  intros [Hlo Hhi]. rewrite <- (Z2Nat.id n Hlo).
  assert (Hm : (Z.to_nat n < 64)%nat) by lia.
  generalize dependent (Z.to_nat n). clear. intros m Hm.
  do 64 (destruct m as [|m]; [vm_compute; reflexivity |]). lia.
Qed.

Lemma sextets_of_digits_of_sextets ss :
  Forall is_sextet ss -> sextets_of_digits (digits_of_sextets ss) = Some ss.
Proof.
  induction 1 as [|s ss Hs _ IH]; [reflexivity |].
  cbn [digits_of_sextets sextets_of_digits].
  rewrite (sextet_of_digit_of_sextet s Hs). cbn [mbind option_bind].
  rewrite IH. reflexivity.
Qed.

Lemma bytes_of_string_bytes s : Forall is_byte (bytes_of_string s).
Proof.
  unfold bytes_of_string. apply List.Forall_map.
  apply Forall_forall. intros c _. unfold is_byte.
  pose proof (N_ascii_bounded c). lia.
Qed.

Lemma read_payload_session_payload s :
  encodable s -> read_payload (session_payload s) = Some s.
Proof.
  intros (Hk & Hh & Hlk & Hlh & Hli & Hdc & Happ).
  unfold read_payload, session_payload.
  rewrite read_bytes_put_bytes by exact Hlk. cbn [mbind option_bind].
  rewrite read_bytes_put_bytes by exact Hlh. cbn [mbind option_bind].
  rewrite read_le32_le32 by exact Hdc. cbn [mbind option_bind].
  rewrite read_bytes_put_bytes by (rewrite bytes_of_string_length; exact Hli).
  cbn [mbind option_bind].
  rewrite <- (app_nil_r (le32 (ss_appID s))).
  rewrite read_le32_le32 by exact Happ. cbn [mbind option_bind].
  rewrite string_of_bytes_of_string. now destruct s.
Qed.

Lemma session_payload_bytes s :
  encodable s -> Forall is_byte (session_payload s).
Proof.
  intros (Hk & Hh & _). unfold session_payload, put_bytes.
  repeat (apply Forall_app; split);
    auto using le32_bytes, bytes_of_string_bytes.
Qed.

(** Decoding what was encoded gives the record back. *)
Lemma StringSession_Decode_Encode s :
  encodable s -> StringSession_Decode (StringSession_Encode s) = inr s.
Proof.
  intros Hs. unfold StringSession_Decode, StringSession_Encode.
  rewrite Ascii.eqb_refl.
  rewrite sextets_of_digits_of_sextets
    by (apply sextets_of_bytes_sextets, session_payload_bytes, Hs).
  cbn [mbind option_bind].
  rewrite bytes_of_sextets_of_bytes by (apply session_payload_bytes, Hs).
  cbn [mbind option_bind].
  now rewrite read_payload_session_payload.
Qed.

Section StringSessions.

Variable env : Env.

Lemma ExportSession_eq w :
  ExportSession env w
  = StringSession_Encode
      (NewStringSession (authKey w) (authKeyHash w) (GetDC env w) (Addr w) (appID w)).
Proof. reflexivity. Qed.


End StringSessions.

Lemma valid_session_keyed_world env salt :
  DcList env = [(1, "149.154.175.58:443"); (2, "149.154.167.50:443");
                (4, "149.154.167.91:443")] ->
  valid_session env (keyed_world salt).
Proof.
  intros Hdc. unfold valid_session, encodable, GetDC. rewrite Hdc.
  cbn. repeat split; try lia; repeat constructor; unfold is_byte; lia.
Qed.



(** ** Borrowing exported senders *)

Lemma sum_list_insert (l : list nat) i x y :
  l !! i = Some x -> (sum_list (<[i := y]> l) + x = sum_list l + y)%nat.
Proof.
  revert i. induction l as [|a l IH]; intros [|i] H; try discriminate.
  - injection H as ->. change (<[0%nat:=y]> (x :: l)) with (y :: l).
    change (sum_list (y :: l)) with (y + sum_list l)%nat.
    change (sum_list (x :: l)) with (x + sum_list l)%nat. lia.
  - change (<[S i:=y]> (a :: l)) with (a :: <[i:=y]> l).
    change (sum_list (a :: <[i:=y]> l)) with (a + sum_list (<[i:=y]> l))%nat.
    change (sum_list (a :: l)) with (a + sum_list l)%nat.
    specialize (IH i H). lia.
Qed.

Lemma sum_created_le (gs : list goroutine) :
  (sum_list (created <$> gs) <= length gs)%nat.
Proof.
  induction gs as [|g gs IH]; [reflexivity |].
  rewrite fmap_cons.
  change (sum_list (created g :: (created <$> gs)))
    with (created g + sum_list (created <$> gs))%nat.
  change (length (g :: gs)) with (S (length gs)).
  destruct g; cbn [created]; lia.
Qed.

Lemma sum_created_insert (gs : list goroutine) i g g' :
  gs !! i = Some g ->
  (sum_list (created <$> <[i := g']> gs) + created g
   = sum_list (created <$> gs) + created g')%nat.
Proof.
  intros H. rewrite list_fmap_insert. apply sum_list_insert.
  now rewrite list_lookup_fmap, H.
Qed.

Lemma sum_created_replicate n : sum_list (created <$> replicate n GoCreate) = 0%nat.
Proof. induction n as [|n IH]; [reflexivity |]. cbn. exact IH. Qed.

(** Distinct senders out of [n] consecutive ones are at most [n]. *)
Lemma distinct_senders_length (l : list sender) base n :
  NoDup l ->
  (forall s, s ∈ l -> exists p, s = Some p /\ (base <= p < base + n)%nat) ->
  (length l <= n)%nat.
Proof.
  intros Hnd Hin.
  assert (Hsub : l ⊆+ (Some <$> seq base n)).
  { apply NoDup_submseteq; [exact Hnd |]. intros s Hs.
    destruct (Hin s Hs) as (p & -> & Hp). apply list_elem_of_fmap.
    exists p. split; [reflexivity |]. apply elem_of_seq. lia. }
  apply submseteq_length in Hsub. now rewrite length_fmap, length_seq in Hsub.
Qed.

Section Borrowing.

Variable env : Env.
Variable penv : PoolEnv.

Hypothesis exports_succeed : forall i, ExportNewSender_answer penv i = None.
Hypothesis initial_requests_succeed : forall i, InitialRequest_answer penv i = None.

Lemma CreateExportedSender_ok dcID c :
  CreateExportedSender penv dcID c
  = (Some (nextClient c), None,
     mkClient (senders c) (S (nextClient c)) (clientLog c) (S (S (clientTick c)))).
Proof.
  unfold CreateExportedSender, pool_ask, pool_new. cbn.
  rewrite exports_succeed, initial_requests_succeed. reflexivity.
Qed.

Lemma fresh_senders_snoc l c c' :
  fresh_senders l c ->
  nextClient c' = S (nextClient c) ->
  fresh_senders (l ++ [Some (nextClient c)]) c'.
Proof.
  intros [Hall Hnd] Hnext. split.
  - apply Forall_app. split.
    + eapply Forall_impl; [exact Hall |]. intros s (p & -> & Hp).
      exists p. split; [reflexivity | lia].
    + constructor; [| constructor]. exists (nextClient c). split; [reflexivity | lia].
  - apply NoDup_app. split; [exact Hnd |]. split.
    + intros s Hin Hin'. apply list_elem_of_singleton in Hin'. subst s.
      rewrite Forall_forall in Hall. destruct (Hall _ Hin) as (p & [= <-] & Hp). lia.
    + apply NoDup_singleton.
Qed.

Lemma top_up_ok dcID n : forall st,
  fresh_senders st.1 st.2 ->
  exists l c',
    top_up penv n dcID st = (l, None, c')
    /\ length l = (length st.1 + n)%nat
    /\ fresh_senders l c'.
Proof.
  induction n as [|n IH]; intros st Hf.
  - exists st.1, st.2. cbn [top_up]. split; [reflexivity |].
    split; [lia | exact Hf].
  - cbn [top_up]. rewrite CreateExportedSender_ok. unfold append_sender. cbn [fst snd].
    match goal with
    | |- context [top_up penv n dcID ?st'] =>
        destruct (IH st') as (l & c'' & E' & Hlen & Hf'')
    end.
    { cbn [fst snd]. apply (fresh_senders_snoc _ _ _ Hf). reflexivity. }
    exists l, c''. split; [exact E' |]. split; [| exact Hf''].
    rewrite Hlen. cbn [fst]. rewrite length_app. cbn. lia.
Qed.

Lemma fresh_senders_take n l c :
  fresh_senders l c -> fresh_senders (take n l) c.
Proof.
  intros [Hall Hnd]. split.
  - now apply Forall_take.
  - rewrite <- (take_drop n l) in Hnd. now apply NoDup_app in Hnd as [? _].
Qed.

(** Every step of every goroutine keeps [race_ok]. *)
Lemma go_step_ok dcID base i st st' :
  race_ok base st -> go_step env penv dcID i st = Racing st' -> race_ok base st'.
Proof.
  destruct st as [ret wr c gs]. unfold race_ok. cbn [rs_go rs_client rs_returned].
  intros (Hn & Hre & Hl & Hh & Hd & Ha) E. unfold go_step in E.
  destruct (gs !! i) as [g|] eqn:Hi; [| injection E as <-; cbn; auto 10].
  assert (Hlen : (i < length gs)%nat) by (eapply lookup_lt_Some; eauto).
  assert (L : forall g' j gj, <[i := g']> gs !! j = Some gj ->
                (j = i /\ gj = g') \/ (j <> i /\ gs !! j = Some gj)).
  { intros g' j gj H. apply list_lookup_insert_Some in H.
    destruct H as [(<- & <- & _)|[Hne H]]; [now left | right].
    split; [congruence | exact H]. }
  destruct g as [| |s|s r|s|s p|s p|].
  - (* GoCreate *)
    rewrite CreateExportedSender_ok in E. injection E as <-.
    cbn [rs_go rs_client rs_returned nextClient].
    assert (Hn' : S (nextClient c)
                  = (base + sum_list (created <$> <[i:=GoLoad (Some (nextClient c))]> gs))%nat).
    { pose proof (sum_created_insert gs i _ (GoLoad (Some (nextClient c))) Hi) as Hs. cbn [created] in Hs. lia. }
    split; [exact Hn' |]. split.
    { intros j Hj. destruct (L _ _ _ Hj) as [[_ ?]|[_ ?]]; [discriminate |].
      now apply (Hre j). }
    split.
    { intros l Hlv.
      assert (Hold : l = ret \/ exists i s, gs !! i = Some (GoStore s l)).
      { destruct Hlv as [->|(j & s & Hj)]; [now left |].
        destruct (L _ _ _ Hj) as [[_ ?]|[_ ?]]; [discriminate | right; eauto]. }
      destruct (Hl l Hold) as (A & B & C). split; [exact A |]. split.
      - intros s Hs. destruct (B s Hs) as (p & -> & Hp). exists p. split; [done | lia].
      - intros j gj s Hj Hhold Hs. destruct (L _ _ _ Hj) as [[_ ->]|[_ Hj']].
        + destruct Hhold as [[= <-]|(r & [=])].
          destruct (B _ Hs) as (p & [= <-] & Hp). lia.
        + exact (C j gj s Hj' Hhold Hs). }
    split.
    { intros j gj s Hj Hhold. destruct (L _ _ _ Hj) as [[_ ->]|[_ Hj']].
      - destruct Hhold as [[= <-]|(r & [=])]. exists (nextClient c).
        split; [done |]. lia.
      - destruct (Hh j gj s Hj' Hhold) as (p & -> & Hp). exists p. split; [done | lia]. }
    split.
    { intros j k gj gk s Hj Hk Hhj Hhk.
      destruct (L _ _ _ Hj) as [[-> ->]|[Hji Hj']], (L _ _ _ Hk) as [[-> ->]|[Hki Hk']];
        try reflexivity.
      - destruct Hhj as [[= <-]|(r & [=])].
        destruct (Hh k gk _ Hk' Hhk) as (p & [= <-] & Hp). lia.
      - destruct Hhk as [[= <-]|(r & [=])].
        destruct (Hh j gj _ Hj' Hhj) as (p & [= <-] & Hp). lia.
      - exact (Hd j k gj gk s Hj' Hk' Hhj Hhk). }
    { intros (j & gj & Hj & Hap). apply Ha.
      destruct (L _ _ _ Hj) as [[_ ->]|[_ Hj']]; [discriminate | eauto]. }
  - (* GoRetry *) now destruct (Hre i).
  - (* GoLoad *)
    injection E as <-. cbn [rs_go rs_client rs_returned].
    assert (Hn' : nextClient c
                  = (base + sum_list (created <$> <[i:=GoStore s ret]> gs))%nat).
    { pose proof (sum_created_insert gs i _ (GoStore s ret) Hi) as Hs. cbn [created] in Hs. lia. }
    assert (Hheld : forall j gj s', <[i:=GoStore s ret]> gs !! j = Some gj ->
                      holds gj s' -> exists gj', gs !! j = Some gj' /\ holds gj' s').
    { intros j gj s' Hj Hhold. destruct (L _ _ _ Hj) as [[-> ->]|[_ Hj']].
      - destruct Hhold as [[=]|(r & [= <- _])]. exists (GoLoad s).
        split; [exact Hi | now left].
      - now exists gj. }
    split; [exact Hn' |]. split.
    { intros j Hj. destruct (L _ _ _ Hj) as [[_ ?]|[_ ?]]; [discriminate |].
      now apply (Hre j). }
    split.
    { intros l Hlv.
      assert (Hold : l = ret \/ exists i s, gs !! i = Some (GoStore s l)).
      { destruct Hlv as [->|(j & s' & Hj)]; [now left |].
        destruct (L _ _ _ Hj) as [[_ [= _ ->]]|[_ ?]]; [now left | right; eauto]. }
      destruct (Hl l Hold) as (A & B & C). split; [exact A |]. split; [exact B |].
      intros j gj s' Hj Hhold. destruct (Hheld j gj s' Hj Hhold) as (gj' & Hj' & Hh').
      exact (C j gj' s' Hj' Hh'). }
    split.
    { intros j gj s' Hj Hhold. destruct (Hheld j gj s' Hj Hhold) as (gj' & Hj' & Hh').
      exact (Hh j gj' s' Hj' Hh'). }
    split.
    { intros j k gj gk s' Hj Hk Hhj Hhk.
      destruct (Hheld j gj s' Hj Hhj) as (gj' & Hj' & Hhj').
      destruct (Hheld k gk s' Hk Hhk) as (gk' & Hk' & Hhk').
      exact (Hd j k gj' gk' s' Hj' Hk' Hhj' Hhk'). }
    { intros (j & gj & Hj & Hap). apply Ha.
      destruct (L _ _ _ Hj) as [[_ ->]|[_ Hj']]; [discriminate | eauto]. }
  - (* GoStore *)
    injection E as <-. cbn [rs_go rs_client rs_returned].
    assert (Hn' : nextClient c
                  = (base + sum_list (created <$> <[i:=GoMapLoad s]> gs))%nat).
    { pose proof (sum_created_insert gs i _ (GoMapLoad s) Hi) as Hs. cbn [created] in Hs. lia. }
    assert (Hheld : forall j gj s', <[i:=GoMapLoad s]> gs !! j = Some gj ->
                      holds gj s' -> j <> i /\ gs !! j = Some gj).
    { intros j gj s' Hj Hhold. destruct (L _ _ _ Hj) as [[-> ->]|[? Hj']]; [| done].
      destruct Hhold as [[=]|(r' & [=])]. }
    assert (Hs_held : holds (GoStore s r) s) by (right; eauto).
    destruct (Hl r (or_intror (ex_intro _ i (ex_intro _ s Hi)))) as (Ar & Br & Cr).
    split; [exact Hn' |]. split.
    { intros j Hj. destruct (L _ _ _ Hj) as [[_ ?]|[_ ?]]; [discriminate |].
      now apply (Hre j). }
    split.
    { intros l Hlv. destruct Hlv as [->|(j & s' & Hj)].
      - split; [| split].
        + apply NoDup_app. split; [exact Ar |]. split; [| apply NoDup_singleton].
          intros x Hx Hx'. apply list_elem_of_singleton in Hx'. subst x.
          exact (Cr i _ s Hi Hs_held Hx).
        + intros x Hx. apply elem_of_app in Hx as [Hx|Hx]; [now apply Br |].
          apply list_elem_of_singleton in Hx. subst x. exact (Hh i _ s Hi Hs_held).
        + intros j gj s' Hj Hhold Hx. destruct (Hheld j gj s' Hj Hhold) as [Hne Hj'].
          apply elem_of_app in Hx as [Hx|Hx]; [exact (Cr j gj s' Hj' Hhold Hx) |].
          apply list_elem_of_singleton in Hx. subst s'.
          apply Hne. exact (Hd j i gj _ s Hj' Hi Hhold Hs_held).
      - destruct (L _ _ _ Hj) as [[_ [=]]|[_ Hj']].
        destruct (Hl l (or_intror (ex_intro _ j (ex_intro _ s' Hj')))) as (A & B & C).
        split; [exact A |]. split; [exact B |].
        intros k gk s'' Hk Hhold. destruct (Hheld k gk s'' Hk Hhold) as [_ Hk'].
        exact (C k gk s'' Hk' Hhold). }
    split.
    { intros j gj s' Hj Hhold. destruct (Hheld j gj s' Hj Hhold) as [_ Hj'].
      exact (Hh j gj s' Hj' Hhold). }
    split.
    { intros j k gj gk s' Hj Hk Hhj Hhk.
      destruct (Hheld j gj s' Hj Hhj) as [_ Hj'].
      destruct (Hheld k gk s' Hk Hhk) as [_ Hk'].
      exact (Hd j k gj gk s' Hj' Hk' Hhj Hhk). }
    { intros _. now destruct r. }
  - (* GoMapLoad *)
    destruct wr; [discriminate |]. injection E as <-. cbn [rs_go rs_client rs_returned].
    assert (Hn' : nextClient c
                  = (base + sum_list (created <$> <[i:=GoMapAssign s (pool_of dcID c)]> gs))%nat).
    { pose proof (sum_created_insert gs i _ (GoMapAssign s (pool_of dcID c)) Hi) as Hs. cbn [created] in Hs. lia. }
    assert (Hkeep : forall j gj, <[i:=GoMapAssign s (pool_of dcID c)]> gs !! j = Some gj ->
                      appended gj = false -> gs !! j = Some gj).
    { intros j gj Hj Hap. destruct (L _ _ _ Hj) as [[_ ->]|[_ Hj']]; [discriminate | done]. }
    split; [exact Hn' |]. split.
    { intros j Hj. apply (Hre j). now apply Hkeep. }
    split.
    { intros l Hlv.
      assert (Hold : l = ret \/ exists i s, gs !! i = Some (GoStore s l)).
      { destruct Hlv as [->|(j & s' & Hj)]; [now left |]. right. exists j, s'.
        now apply Hkeep. }
      destruct (Hl l Hold) as (A & B & C). split; [exact A |]. split; [exact B |].
      intros j gj s' Hj Hhold. apply (C j gj s'); [| exact Hhold].
      apply Hkeep; [exact Hj |]. now destruct Hhold as [->|(r' & ->)]. }
    split.
    { intros j gj s' Hj Hhold. apply (Hh j gj s'); [| exact Hhold].
      apply Hkeep; [exact Hj |]. now destruct Hhold as [->|(r' & ->)]. }
    split.
    { intros j k gj gk s' Hj Hk Hhj Hhk. apply (Hd j k gj gk s'); try assumption.
      - apply Hkeep; [exact Hj |]. now destruct Hhj as [->|(r' & ->)].
      - apply Hkeep; [exact Hk |]. now destruct Hhk as [->|(r' & ->)]. }
    { intros _. apply Ha. exists i, (GoMapLoad s). now split. }
  - (* GoMapAssign *)
    destruct wr; [discriminate |]. injection E as <-. cbn [rs_go rs_client rs_returned].
    assert (Hn' : nextClient c
                  = (base + sum_list (created <$> <[i:=GoMapAssigning s p]> gs))%nat).
    { pose proof (sum_created_insert gs i _ (GoMapAssigning s p) Hi) as Hs. cbn [created] in Hs. lia. }
    assert (Hkeep : forall j gj, <[i:=GoMapAssigning s p]> gs !! j = Some gj ->
                      appended gj = false -> gs !! j = Some gj).
    { intros j gj Hj Hap. destruct (L _ _ _ Hj) as [[_ ->]|[_ Hj']]; [discriminate | done]. }
    split; [exact Hn' |]. split.
    { intros j Hj. apply (Hre j). now apply Hkeep. }
    split.
    { intros l Hlv.
      assert (Hold : l = ret \/ exists i s, gs !! i = Some (GoStore s l)).
      { destruct Hlv as [->|(j & s' & Hj)]; [now left |]. right. exists j, s'.
        now apply Hkeep. }
      destruct (Hl l Hold) as (A & B & C). split; [exact A |]. split; [exact B |].
      intros j gj s' Hj Hhold. apply (C j gj s'); [| exact Hhold].
      apply Hkeep; [exact Hj |]. now destruct Hhold as [->|(r' & ->)]. }
    split.
    { intros j gj s' Hj Hhold. apply (Hh j gj s'); [| exact Hhold].
      apply Hkeep; [exact Hj |]. now destruct Hhold as [->|(r' & ->)]. }
    split.
    { intros j k gj gk s' Hj Hk Hhj Hhk. apply (Hd j k gj gk s'); try assumption.
      - apply Hkeep; [exact Hj |]. now destruct Hhj as [->|(r' & ->)].
      - apply Hkeep; [exact Hk |]. now destruct Hhk as [->|(r' & ->)]. }
    { intros _. apply Ha. exists i, (GoMapAssign s p). now split. }
  - (* GoMapAssigning *)
    injection E as <-. cbn [rs_go rs_client rs_returned set_pool nextClient].
    assert (Hn' : nextClient c
                  = (base + sum_list (created <$> <[i:=GoDone]> gs))%nat).
    { pose proof (sum_created_insert gs i _ (GoDone) Hi) as Hs. cbn [created] in Hs. lia. }
    assert (Hkeep : forall j gj, <[i:=GoDone]> gs !! j = Some gj ->
                      appended gj = false -> gs !! j = Some gj).
    { intros j gj Hj Hap. destruct (L _ _ _ Hj) as [[_ ->]|[_ Hj']]; [discriminate | done]. }
    split; [exact Hn' |]. split.
    { intros j Hj. apply (Hre j). now apply Hkeep. }
    split.
    { intros l Hlv.
      assert (Hold : l = ret \/ exists i s, gs !! i = Some (GoStore s l)).
      { destruct Hlv as [->|(j & s' & Hj)]; [now left |]. right. exists j, s'.
        now apply Hkeep. }
      destruct (Hl l Hold) as (A & B & C). split; [exact A |]. split; [exact B |].
      intros j gj s' Hj Hhold. apply (C j gj s'); [| exact Hhold].
      apply Hkeep; [exact Hj |]. now destruct Hhold as [->|(r' & ->)]. }
    split.
    { intros j gj s' Hj Hhold. apply (Hh j gj s'); [| exact Hhold].
      apply Hkeep; [exact Hj |]. now destruct Hhold as [->|(r' & ->)]. }
    split.
    { intros j k gj gk s' Hj Hk Hhj Hhk. apply (Hd j k gj gk s'); try assumption.
      - apply Hkeep; [exact Hj |]. now destruct Hhj as [->|(r' & ->)].
      - apply Hkeep; [exact Hk |]. now destruct Hhk as [->|(r' & ->)]. }
    { intros _. apply Ha. exists i, (GoMapAssigning s p). now split. }
  - (* GoDone *) injection E as <-. cbn. auto 10.
Qed.

Lemma go_step_length dcID i st st' :
  go_step env penv dcID i st = Racing st' -> length (rs_go st') = length (rs_go st).
Proof.
  destruct st as [ret wr c gs]. unfold go_step.
  destruct (gs !! i) as [[| |s|s r|s|s p|s p|]|]; cbn [rs_go];
    repeat first
      [ progress rewrite CreateExportedSender_ok
      | match goal with
        | |- context [if ?b then _ else _] => destruct b
        end ];
    intros E; try discriminate E; injection E as <-; cbn [rs_go];
    now rewrite ?length_insert.
Qed.

Lemma race_keeps_ok dcID base sched : forall st st',
  race_ok base st -> race env penv dcID sched st = Racing st' ->
  race_ok base st' /\ length (rs_go st') = length (rs_go st).
Proof.
  induction sched as [|i sched IH]; intros st st' Hok E; cbn [race] in E.
  - injection E as <-. now split.
  - destruct (go_step env penv dcID i st) as [st1|] eqn:E1; [| discriminate].
    destruct (IH st1 st' (go_step_ok dcID base i st st1 Hok E1) E) as [Hok' Hlen].
    split; [exact Hok' |]. rewrite Hlen. exact (go_step_length dcID i st st1 E1).
Qed.

Lemma race_ok_start dcID c n :
  race_ok (nextClient c) (mkRacing [] false (set_pool dcID [] c) (replicate n GoCreate)).
Proof.
  unfold race_ok. cbn [rs_go rs_client rs_returned set_pool nextClient].
  assert (Hrep : forall i g, replicate n GoCreate !! i = Some g -> g = GoCreate).
  { intros i g H. now apply lookup_replicate in H as [-> _]. }
  split; [rewrite sum_created_replicate; lia |].
  split; [intros i H; now apply Hrep in H |].
  split.
  { intros l [->|(i & s & H)]; [| now apply Hrep in H].
    split; [constructor |]. split; [intros s Hs; now apply elem_of_nil in Hs |].
    intros i g s _ _ Hs. now apply elem_of_nil in Hs. }
  split.
  { intros i g s H Hh. apply Hrep in H. subst g. now destruct Hh as [?|[? ?]]. }
  split.
  { intros i j gi gj s H _ Hh. apply Hrep in H. subst gi. now destruct Hh as [?|[? ?]]. }
  intros (i & g & H & Hap). apply Hrep in H. now subst g.
Qed.

(** What [returned] is when every goroutine has finished. *)
Lemma race_finished base st :
  race_ok base st ->
  forallb go_done (rs_go st) = true ->
  NoDup (rs_returned st)
  /\ Forall (fun s => is_Some s) (rs_returned st)
  /\ (length (rs_returned st) <= length (rs_go st))%nat
  /\ ((0 < length (rs_go st))%nat -> (1 <= length (rs_returned st))%nat).
Proof.
  intros (Hn & _ & Hl & _ & _ & Ha) Hdone.
  destruct (Hl (rs_returned st) (or_introl eq_refl)) as (A & B & _).
  split; [exact A |]. split; [| split].
  - apply Forall_forall. intros s Hs. destruct (B s Hs) as (p & -> & _). now exists p.
  - apply (distinct_senders_length _ base); [exact A |].
    intros s Hs. destruct (B s Hs) as (p & -> & Hp). exists p. split; [done |].
    pose proof (sum_created_le (rs_go st)). lia.
  - intros Hpos.
    destruct (rs_go st) as [|g gs] eqn:Egs; [cbn in Hpos; lia |].
    cbn [forallb] in Hdone. apply andb_true_iff in Hdone as [Hg _].
    destruct (rs_returned st) as [|s l] eqn:Er; [| cbn; lia].
    exfalso. apply Ha; [| reflexivity]. exists 0%nat, g. split; [reflexivity |].
    now destruct g.
Qed.

(** One goroutine run to its end without any other in between. *)
Lemma race_one dcID i ret c gs :
  gs !! i = Some GoCreate ->
  race env penv dcID (replicate 7 i) (mkRacing ret false c gs)
  = Racing
      (mkRacing (ret ++ [Some (nextClient c)]) false
         (set_pool dcID (pool_of dcID c ++ [Some (nextClient c)])
            (mkClient (senders c) (S (nextClient c)) (clientLog c)
               (S (S (clientTick c)))))
         (<[i := GoDone]> gs)).
Proof.
  intros Hi.
  assert (Hlen : (i < length gs)%nat) by (eapply lookup_lt_Some; eauto).
  assert (Hat : forall g, <[i := g]> gs !! i = Some g).
  { intros g. now apply list_lookup_insert_eq. }
  cbn [replicate race]. unfold go_step at 1. cbv beta iota zeta.
  rewrite Hi, CreateExportedSender_ok. cbv beta iota zeta.
  do 5 (unfold go_step at 1; cbv beta iota zeta;
        rewrite ?list_insert_insert_eq, Hat; cbv beta iota zeta).
  unfold go_step at 1. cbv beta iota zeta. rewrite ?list_insert_insert_eq, Hat.
  cbv beta iota zeta. now rewrite ?list_insert_insert_eq.
Qed.

Lemma race_app dcID s1 s2 st st1 :
  race env penv dcID s1 st = Racing st1 ->
  race env penv dcID (s1 ++ s2) st = race env penv dcID s2 st1.
Proof.
  revert st. induction s1 as [|i s1 IH]; intros st E; cbn [race app] in *.
  - now injection E as <-.
  - destruct (go_step env penv dcID i st); [now apply IH | discriminate].
Qed.

(** The goroutines [i0 .. i0 + k - 1] run one after the other. *)
Lemma race_one_by_one dcID k : forall i0 ret c gs,
  (forall j, (j < k)%nat -> gs !! (i0 + j)%nat = Some GoCreate) ->
  exists c' gs',
    race env penv dcID (flat_map (replicate 7) (seq i0 k)) (mkRacing ret false c gs)
    = Racing (mkRacing (ret ++ (Some <$> seq (nextClient c) k)) false c' gs')
    /\ length gs' = length gs
    /\ (forall j, (i0 <= j < i0 + k)%nat -> gs' !! j = Some GoDone)
    /\ (forall j, (j < i0)%nat -> gs' !! j = gs !! j).
Proof.
  induction k as [|k IH]; intros i0 ret c gs Hgs.
  - exists c, gs. cbn. rewrite app_nil_r. split; [reflexivity |].
    split; [reflexivity |]. split; [intros j Hj; lia | reflexivity].
  - cbn [seq flat_map].
    assert (H0 : gs !! i0 = Some GoCreate).
    { specialize (Hgs 0%nat ltac:(lia)). now rewrite Nat.add_0_r in Hgs. }
    rewrite (race_app dcID _ _ _ _ (race_one dcID i0 ret c gs H0)).
    match goal with
    | |- context [mkRacing _ false ?c1 (<[i0 := GoDone]> gs)] =>
        destruct (IH (S i0) (ret ++ [Some (nextClient c)])%list c1 (<[i0 := GoDone]> gs))
          as (c' & gs' & E & Hlen & Hdone & Hkeep)
    end.
    { intros j Hj. rewrite list_lookup_insert_ne by lia.
      specialize (Hgs (S j) ltac:(lia)). now replace (S i0 + j)%nat with (i0 + S j)%nat by lia. }
    exists c', gs'. rewrite E. cbn [set_pool nextClient fmap list_fmap].
    rewrite <- app_assoc. split; [reflexivity |].
    split; [now rewrite Hlen, length_insert |].
    split.
    + intros j Hj. destruct (decide (j = i0)) as [->|Hne].
      * rewrite Hkeep by lia. apply list_lookup_insert_eq. eapply lookup_lt_Some; eauto.
      * apply Hdone. lia.
    + intros j Hj. rewrite Hkeep by lia. apply list_lookup_insert_ne. lia.
Qed.

(** C1 (amended).  When every creation of a sender succeeds and the
    senders pooled for the datacenter are non-nil, allocated and distinct,
    borrowing [n] senders with [1 <= n <= 10] goes as follows.  From a pool
    that is not empty, and from an empty pool when the goroutines that
    create the senders run one after the other, the call returns exactly [n]
    senders, all non-nil and pairwise distinct, and no error.  From an empty
    pool under any other schedule, a call that returns returns no error and
    at least one and at most [n] senders, all non-nil and pairwise distinct:
    the goroutines append to [returned] without a lock, so an append can be
    lost, but none is doubled.  A count above ten, or below one, is rejected
    with an error and returns no sender: the count is not clamped. *)
Theorem borrow_returns_distinct_senders dcID n sched c :
  fresh_senders (pool_of dcID c) c ->
  (1 <= n <= 10 ->
     (pool_of dcID c <> [] \/ sched = one_by_one (Z.to_nat n) ->
        exists l c',
          BorrowExportedSenders env penv dcID [n] sched c = Borrowed l None c'
          /\ length l = Z.to_nat n
          /\ NoDup l
          /\ Forall (fun s => is_Some s) l)
     /\ (forall l err c',
           BorrowExportedSenders env penv dcID [n] sched c = Borrowed l err c' ->
           err = None
           /\ (1 <= length l <= Z.to_nat n)%nat
           /\ NoDup l
           /\ Forall (fun s => is_Some s) l))
  /\ (10 < n ->
      BorrowExportedSenders env penv dcID [n] sched c
      = Borrowed [] (Some (errors_New "count must be less than 10")) c)
  /\ (n < 1 ->
      BorrowExportedSenders env penv dcID [n] sched c
      = Borrowed [] (Some (errors_New "count must be greater than 0")) c).
Proof.
  intros Hpool. unfold BorrowExportedSenders. split; [| split].
  - intros [Hlo Hhi].
    destruct (Z.ltb_spec n 1) as [?|_]; [lia |].
    destruct (Z.ltb_spec 10 n) as [?|_]; [lia |].
    assert (Hsome : forall l c', fresh_senders l c' -> Forall (fun s => is_Some s) l).
    { intros l c' [Hall _]. eapply Forall_impl; [exact Hall |].
      intros s (p & -> & _). now exists p. }
    destruct (pool_of dcID c) as [|s0 pool] eqn:Epool.
    + (* the goroutines *)
      pose proof (race_ok_start dcID c (Z.to_nat n)) as Hstart.
      assert (Hany : forall l err c',
                match race env penv dcID sched
                        (mkRacing [] false (set_pool dcID [] c)
                           (replicate (Z.to_nat n) GoCreate)) with
                | Racing st =>
                    if forallb go_done (rs_go st)
                    then Borrowed (rs_returned st) None (rs_client st) else Waiting
                | Fatal text => Aborted text
                end = Borrowed l err c' ->
                err = None /\ (1 <= length l <= Z.to_nat n)%nat /\ NoDup l
                /\ Forall (fun s => is_Some s) l).
      { intros l err c' E.
        destruct (race env penv dcID sched _) as [st|] eqn:Er; [| discriminate].
        destruct (forallb go_done (rs_go st)) eqn:Hdone; [| discriminate].
        injection E as <- <- <-.
        destruct (race_keeps_ok dcID _ sched _ st Hstart Er) as [Hok Hlen].
        cbn [rs_go] in Hlen. rewrite length_replicate in Hlen.
        destruct (race_finished _ st Hok Hdone) as (A & B & C & D).
        rewrite Hlen in C, D. split; [reflexivity |].
        split; [split; [apply D; lia | exact C] |]. now split. }
      split; [| exact Hany].
      intros [Hne | ->]; [congruence |].
      destruct (race_one_by_one dcID (Z.to_nat n) 0%nat [] (set_pool dcID [] c)
                  (replicate (Z.to_nat n) GoCreate))
        as (c' & gs' & E & Hlen & Hdone & _).
      { intros j Hj. now apply lookup_replicate. }
      unfold one_by_one. rewrite E. cbn [rs_go rs_returned rs_client].
      assert (Hall : forallb go_done gs' = true).
      { apply forallb_forall. intros g Hg. apply list_elem_of_In in Hg.
        apply list_elem_of_lookup in Hg as [j Hj].
        assert (j < length gs')%nat by (eapply lookup_lt_Some; eauto).
        rewrite length_replicate in Hlen.
        rewrite Hdone in Hj by lia. now injection Hj as <-. }
      rewrite Hall. eexists _, _. split; [reflexivity |].
      cbn [app]. rewrite length_fmap, length_seq. split; [reflexivity |]. split.
      * apply (NoDup_fmap_2 _). apply NoDup_seq.
      * apply Forall_fmap, Forall_forall. intros p _. now exists p.
    + set (total := Z.of_nat (length (s0 :: pool))).
      destruct (Z.ltb_spec total n) as [Hshort|Henough].
      * destruct (top_up_ok dcID (Z.to_nat (n - total)) (s0 :: pool, c) Hpool)
          as (l & c' & E & Hlen & Hf).
        rewrite E.
        assert (Hl : length l = Z.to_nat n).
        { rewrite Hlen. cbn [fst]. unfold total in *. lia. }
        split.
        -- intros _. exists l, c'. split; [reflexivity |]. split; [exact Hl |].
           split; [apply Hf | exact (Hsome _ _ Hf)].
        -- intros l' err c'' [= <- <- <-]. split; [reflexivity |].
           split; [lia |]. split; [apply Hf | exact (Hsome _ _ Hf)].
      * pose proof (fresh_senders_take (Z.to_nat n) _ _ Hpool) as Hf.
        assert (Hl : length (take (Z.to_nat n) (s0 :: pool)) = Z.to_nat n).
        { rewrite length_take. unfold total in *. lia. }
        split.
        -- intros _. eexists _, _. split; [reflexivity |]. split; [exact Hl |].
           split; [apply Hf | exact (Hsome _ _ Hf)].
        -- intros l' err c'' [= <- <- <-]. split; [reflexivity |].
           split; [lia |]. split; [apply Hf | exact (Hsome _ _ Hf)].
  - intros Hn.
    destruct (Z.ltb_spec n 1) as [?|_]; [lia |].
    destruct (Z.ltb_spec 10 n) as [_|?]; [reflexivity | lia].
  - intros Hn. destruct (Z.ltb_spec n 1) as [_|?]; [reflexivity | lia].
Qed.

End Borrowing.

Lemma borrow_returns_distinct_senders_witness :
  let env := quiet_env (fun _ => None) (fun _ => None) in
  fresh_senders (pool_of 2 new_client) new_client
  /\ exists c',
       BorrowExportedSenders env creating 2 [3] (one_by_one 3) new_client
       = Borrowed [Some 0%nat; Some 1%nat; Some 2%nat] None c'.
Proof.
  intros env.
  assert (Hf : fresh_senders (pool_of 2 new_client) new_client) by (split; constructor).
  split; [exact Hf |].
  destruct (borrow_returns_distinct_senders env creating (fun _ => eq_refl)
              (fun _ => eq_refl) 2 3 (one_by_one 3) new_client Hf) as [H _].
  destruct (H ltac:(lia)) as [H1 _].
  destruct (H1 (or_intror eq_refl)) as (l & c' & E & _).
  exists c'. rewrite E. vm_compute in E. now injection E as <- _.
Defined.

(** C1 as stated fails: a count of eleven is not clamped to ten; it is
    rejected, and no sender is returned. *)
Lemma borrow_eleven_is_rejected :
  let env := quiet_env (fun _ => None) (fun _ => None) in
  BorrowExportedSenders env creating 2 [11] (one_by_one 11) new_client
  = Borrowed [] (Some (errors_New "count must be less than 10")) new_client
  /\ match BorrowExportedSenders env creating 2 [11] (one_by_one 11) new_client with
     | Borrowed l _ _ => length l <> Z.to_nat (Z.min 11 10)
     | _ => False
     end.
Proof. split; [reflexivity | vm_compute; discriminate]. Qed.

(** The goroutines of the empty-pool branch run unsynchronised.  When two
    of them read [returned] before either has stored into it, the later
    store overwrites the earlier: two senders are made and pooled, and one
    is returned.  When one enters its map assignment while the other is
    inside its own, the runtime stops the program. *)
Lemma borrow_race_loses_a_sender :
  let env := quiet_env (fun _ => None) (fun _ => None) in
  (exists c',
     BorrowExportedSenders env creating 2 [2] [0; 1; 0; 1; 0; 0; 0; 0; 1; 1; 1; 1]%nat
       new_client
     = Borrowed [Some 1%nat] None c'
     /\ pool_of 2 c' = [Some 0%nat; Some 1%nat])
  /\ BorrowExportedSenders env creating 2 [2] [0; 1; 0; 1; 0; 1; 0; 1; 0; 1]%nat
       new_client
     = Aborted "concurrent map writes".
Proof.
  intros env. split; [| vm_compute; reflexivity].
  eexists. split; [vm_compute; reflexivity | vm_compute; reflexivity].
Qed.

(** ** The cache file name *)

Lemma substring_length (s : string) : forall n m,
  (n + m <= String.length s)%nat -> String.length (substring n m s) = m.
Proof.
  induction s as [|a s IH]; intros n m H; cbn in H.
  - assert (n = 0%nat) by lia. assert (m = 0%nat) by lia. subst. reflexivity.
  - destruct n as [|n]; destruct m as [|m]; cbn; try reflexivity.
    + f_equal. apply (IH 0%nat). cbn. lia.
    + apply (IH n 0%nat). lia.
    + apply IH. lia.
Qed.

(** X1.  [genCacheFileName] answers [cache] for the empty string session;
    for a session of two bytes or more it answers [cache_] followed by
    exactly two bytes, those at [len/2-1] and [len/2] (not ten, as the
    comment in the source says); for a session of one byte the slice starts
    at [-1] and the function panics. *)
Theorem genCacheFileName_spec (s : string) :
  (s = "" -> genCacheFileName s = Some "cache")
  /\ (String.length s = 1%nat -> genCacheFileName s = None)
  /\ ((2 <= String.length s)%nat ->
      exists mid,
        genCacheFileName s = Some ("cache_" +:+ mid)
        /\ mid = substring (Nat.div (String.length s) 2 - 1) 2 s
        /\ String.length mid = 2%nat).
Proof.
  split; [| split].
  - intros ->. reflexivity.
  - intros H. destruct s as [|a [|b s]]; cbn in H; try discriminate. reflexivity.
  - intros H. unfold genCacheFileName.
    destruct (String.eqb_spec s "") as [->|_]; [cbn in H; lia |].
    set (n := Z.of_nat (String.length s)).
    assert (Hq : Z.quot n 2 = Z.of_nat (Nat.div (String.length s) 2)).
    { rewrite Z.quot_div_nonneg by lia. unfold n. now rewrite Nat2Z.inj_div. }
    pose proof (Nat.div_mod_eq (String.length s) 2) as Hdm.
    pose proof (Nat.mod_upper_bound (String.length s) 2 ltac:(lia)) as Hm.
    unfold go_slice. rewrite Hq.
    destruct (Z.leb_spec 0 (Z.of_nat (String.length s `div` 2) - 1)); [| lia].
    destruct (Z.leb_spec (Z.of_nat (String.length s `div` 2) - 1)
                (Z.of_nat (String.length s `div` 2) + 1)); [| lia].
    destruct (Z.leb_spec (Z.of_nat (String.length s `div` 2) + 1)
                (Z.of_nat (String.length s))); [| lia].
    cbn [andb].
    replace (Z.to_nat (Z.of_nat (String.length s `div` 2) - 1))
      with (String.length s `div` 2 - 1)%nat by lia.
    replace (Z.to_nat (Z.of_nat (String.length s `div` 2) + 1
                       - (Z.of_nat (String.length s `div` 2) - 1)))
      with 2%nat by lia.
    eexists. split; [reflexivity |]. split; [reflexivity |].
    apply substring_length. lia.
Qed.

Lemma genCacheFileName_spec_witness :
  (2 <= String.length "1BvXabcdefgh")%nat
  /\ genCacheFileName "1BvXabcdefgh" = Some "cache_bc"
  /\ (String.length "Z" = 1%nat /\ genCacheFileName "Z" = None)
  /\ genCacheFileName "" = Some "cache".
Proof.
  destruct (genCacheFileName_spec "1BvXabcdefgh") as (_ & _ & H3).
  destruct (genCacheFileName_spec "Z") as (_ & H2 & _).
  destruct (genCacheFileName_spec "") as (H1 & _ & _).
  split; [cbn; lia |]. split.
  - destruct (H3 ltac:(cbn; lia)) as (mid & E & -> & _). exact E.
  - split; [split; [reflexivity | apply H2; reflexivity] | apply H1; reflexivity].
Defined.

(** ** The datacenter of a session *)

Lemma find_unique_address (l : list (Z * string)) dc addr :
  NoDup l.*2 -> (dc, addr) ∈ l ->
  List.find (fun kv => String.eqb kv.2 addr) l = Some (dc, addr).
Proof.
  induction l as [|[k v] l IH]; intros Hnd Hin.
  - now apply elem_of_nil in Hin.
  - cbn [List.find snd]. rewrite fmap_cons in Hnd. apply NoDup_cons in Hnd as [Hv Hnd].
    destruct (String.eqb_spec v addr) as [->|Hne].
    + apply elem_of_cons in Hin as [[= -> ]|Hin]; [reflexivity |].
      exfalso. apply Hv. apply list_elem_of_fmap. now exists (dc, addr).
    + apply elem_of_cons in Hin as [[= -> ->]|Hin]; [congruence |]. now apply IH.
Qed.

(** X2.  [GetDC] answers the datacenter whose address in [utils.DcList] is
    the session's address, whatever the order in which the table is walked,
    as long as the table lists no address twice; when the session's address
    is not in the table at all it answers 4. *)
Theorem GetDC_finds_the_address env w :
  (forall dc, NoDup (DcList env).*2 -> (dc, Addr w) ∈ DcList env -> GetDC env w = dc)
  /\ ((forall dc, (dc, Addr w) ∉ DcList env) -> GetDC env w = 4).
Proof.
  unfold GetDC. split.
  - intros dc Hnd Hin. now rewrite (find_unique_address _ dc (Addr w) Hnd Hin).
  - intros Hno. destruct (List.find _ _) as [[k v]|] eqn:E; [| reflexivity].
    apply List.find_some in E as [Hin Heq]. cbn in Heq.
    apply String.eqb_eq in Heq. subst v. exfalso. apply (Hno k).
    now apply list_elem_of_In.
Qed.

Lemma GetDC_finds_the_address_witness :
  let env := quiet_env (fun _ => None) (fun _ => None) in
  let w := new_world "149.154.167.50:443" 6 true true in
  NoDup (DcList env).*2 /\ (2, Addr w) ∈ DcList env /\ GetDC env w = 2.
Proof.
  intros env w.
  assert (Hnd : NoDup (DcList env).*2).
  { apply (bool_decide_unpack _). vm_compute. exact I. }
  assert (Hin : (2, Addr w) ∈ DcList env).
  { apply (bool_decide_unpack _). vm_compute. exact I. }
  split; [exact Hnd |]. split; [exact Hin |].
  destruct (GetDC_finds_the_address env w) as [H _]. exact (H 2 Hnd Hin).
Defined.

(** ** The pool of exported senders *)

Lemma pool_of_set_pool dcID dc l c :
  pool_of dc (set_pool dcID l c) = if decide (dc = dcID) then l else pool_of dc c.
Proof.
  unfold pool_of, set_pool. cbn. destruct (decide (dc = dcID)) as [->|Hne].
  - now rewrite lookup_insert_eq.
  - now rewrite lookup_insert_ne by congruence.
Qed.

(** X3.  [GetCachedExportedSenders] after [AddNewExportedSenderToMap]: the
    sender is appended to the pool of its own datacenter, after those
    already there, and the pool of every other datacenter is as it was. *)
Theorem AddNewExportedSenderToMap_appends dcID dc s c :
  GetCachedExportedSenders dc (AddNewExportedSenderToMap dcID s c)
  = if decide (dc = dcID)
    then (GetCachedExportedSenders dcID c ++ [s])%list
    else GetCachedExportedSenders dc c.
Proof.
  unfold GetCachedExportedSenders, AddNewExportedSenderToMap, set_pool, pool_of. cbn.
  destruct (decide (dc = dcID)) as [->|Hne].
  - rewrite lookup_insert_eq. now destruct (senders c !! dcID).
  - now rewrite lookup_insert_ne by congruence.
Qed.

(** ** Cleaning the pool *)

Lemma terminate_each_None l : terminate_each l = None <-> None ∈ l.
Proof.
  induction l as [|[p|] l IH]; cbn.
  - split; [discriminate | intros H; now apply elem_of_nil in H].
  - destruct (terminate_each l).
    + split; [discriminate |]. intros H. apply elem_of_cons in H as [?|H]; [discriminate|].
      now apply IH in H.
    + split; [| reflexivity]. intros _. apply elem_of_cons. right. now apply IH.
  - split; [| reflexivity]. intros _. apply elem_of_cons. now left.
Qed.

Lemma terminate_each_Some l ts :
  terminate_each l = Some ts -> l = Some <$> ts.
Proof.
  revert ts. induction l as [|[p|] l IH]; cbn; intros ts H.
  - now injection H as <-.
  - destruct (terminate_each l) as [ts'|]; [| discriminate].
    injection H as <-. cbn. f_equal. now apply IH.
  - discriminate.
Qed.

Lemma terminate_pools_None l :
  terminate_pools l = None <-> exists kv, kv ∈ l /\ None ∈ kv.2.
Proof.
  induction l as [|[k pool] l IH]; cbn.
  - split; [discriminate | intros (kv & H & _); now apply elem_of_nil in H].
  - destruct (terminate_each pool) as [ts|] eqn:E.
    + destruct (terminate_pools l) as [ts'|].
      * split; [discriminate |]. intros (kv & Hin & Hn).
        apply elem_of_cons in Hin as [->|Hin].
        -- cbn in Hn. apply terminate_each_None in Hn. congruence.
        -- assert (H : @None (list nat) = None) by reflexivity.
           destruct IH as [_ IH]. discriminate IH. now exists kv.
      * split; [| reflexivity]. intros _. destruct IH as [IH _].
        destruct (IH eq_refl) as (kv & Hin & Hn). exists kv. split; [| exact Hn].
        apply elem_of_cons. now right.
    + split; [| reflexivity]. intros _. exists (k, pool). split.
      * apply elem_of_cons. now left.
      * now apply terminate_each_None.
Qed.

Lemma terminate_pools_Some l : forall ts,
  terminate_pools l = Some ts ->
  forall p, p ∈ ts <-> exists kv, kv ∈ l /\ Some p ∈ kv.2.
Proof.
  induction l as [|[k pool] l IH]; cbn; intros ts H p.
  - injection H as <-. split; [intros H; now apply elem_of_nil in H |].
    intros (kv & H & _). now apply elem_of_nil in H.
  - destruct (terminate_each pool) as [ts1|] eqn:E; [| discriminate].
    destruct (terminate_pools l) as [ts2|]; [| discriminate].
    injection H as <-. apply terminate_each_Some in E. subst pool.
    rewrite elem_of_app, (IH ts2 eq_refl p). split.
    + intros [H|(kv & Hin & Hp)].
      * exists (k, Some <$> ts1). split; [apply elem_of_cons; now left |].
        cbn. apply list_elem_of_fmap. now exists p.
      * exists kv. split; [apply elem_of_cons; now right | exact Hp].
    + intros (kv & Hin & Hp). apply elem_of_cons in Hin as [->|Hin].
      * left. cbn in Hp. apply list_elem_of_fmap in Hp as (q & [= ->] & Hq). exact Hq.
      * right. now exists kv.
Qed.

Lemma pooled_somewhere (c : Client) (s : sender) :
  (exists kv, kv ∈ map_to_list (senders c) /\ s ∈ kv.2)
  <-> exists dc, s ∈ pool_of dc c.
Proof.
  split.
  - intros ([k pool] & Hin & Hs). apply elem_of_map_to_list in Hin.
    exists k. unfold pool_of. now rewrite Hin.
  - intros (dc & Hs). unfold pool_of in Hs.
    destruct (senders c !! dc) as [pool|] eqn:E; [| now apply elem_of_nil in Hs].
    exists (dc, pool). split; [now apply elem_of_map_to_list | exact Hs].
Qed.



(** ** Starting the client *)

(** X5.  [Client.Start] connects only when the client is not connected,
    and a failed [Connect] ends it with that error before the authorization
    is looked at.  Otherwise [AuthPrompt] runs exactly when the
    authorization check failed, and what [Start] returns is then the
    prompt's result: the error of the check itself is never returned. *)
Theorem Start_returns_the_prompt_error (e : StartEnv) :
  (CallConnect ∈ (Start e).2 <-> IsConnected_answer e = false)
  /\ (forall err,
        IsConnected_answer e = false -> Connect_answer e = Some err ->
        Start e = (Some err, [CallConnect]))
  /\ (IsConnected_answer e = true \/ Connect_answer e = None ->
      (CallAuthPrompt ∈ (Start e).2 <-> UpdatesGetState_answer e <> None)
      /\ (Start e).1
         = match UpdatesGetState_answer e with
           | Some _ => AuthPrompt_answer e
           | None => None
           end).
Proof.
  unfold Start, IsAuthorized.
  destruct e as [conn cerr uerr perr]. cbn [IsConnected_answer Connect_answer
    UpdatesGetState_answer AuthPrompt_answer].
  split; [| split].
  - destruct conn, cerr, uerr, perr; cbn; set_unfold; intuition congruence.
  - intros err -> ->. reflexivity.
  - intros Hc.
    destruct conn, cerr as [ce|]; try (destruct Hc; discriminate);
      destruct uerr, perr; cbn; (split; [set_unfold; intuition congruence | reflexivity]).
Qed.

Lemma Start_returns_the_prompt_error_witness :
  let e := mkStartEnv true None (Some (errors_New "AUTH_KEY_UNREGISTERED")) None in
  (IsConnected_answer e = true \/ Connect_answer e = None)
  /\ Start e = (None, [CallUpdatesGetState; CallAuthPrompt]).
Proof.
  intros e. split; [now left |].
  destruct (Start_returns_the_prompt_error e) as (_ & _ & H).
  destruct (H (or_introl eq_refl)) as [_ E].
  reflexivity.
Defined.

(** ** What a computation leaves alone *)

Lemma keeps_ret {A X} (f : World -> X) (a : A) : keeps f (ret a).
Proof. intros w. reflexivity. Qed.

Lemma keeps_panic {A X} (f : World -> X) text : keeps f (@panic A text).
Proof. intros w. reflexivity. Qed.

Lemma keeps_get {A X} (f : World -> X) (g : World -> A) : keeps f (get g).
Proof. intros w. reflexivity. Qed.

Lemma keeps_bind {A B X} (f : World -> X) (c : M A) (k : A -> M B) :
  keeps f c -> (forall a, keeps f (k a)) -> keeps f (bind c k).
Proof.
  intros Hc Hk w. unfold bind. specialize (Hc w).
  destruct (c w) as [a w1|t w1|]; [| exact Hc | exact I].
  specialize (Hk a w1). destruct (k a w1); [| | exact I]; congruence.
Qed.

Lemma keeps_modify {X} (f : World -> X) g :
  (forall w, f (g w) = f w) -> keeps f (modify g).
Proof. intros H w. apply H. Qed.

Lemma keeps_ask {A X} (f : World -> X) (q : nat -> A) :
  (forall w n, f (set_tick n w) = f w) -> keeps f (ask q).
Proof. intros H w. apply H. Qed.

Lemma keeps_emit {X} (f : World -> X) e :
  (forall w t, f (set_trace t w) = f w) -> keeps f (emit e).
Proof. intros H w. apply H. Qed.

Lemma keeps_Ret {A X} (f : World -> X) (c : M A) w a w' :
  keeps f c -> c w = Ret a w' -> f w' = f w.
Proof. intros H E. specialize (H w). now rewrite E in H. Qed.

Ltac keeps_steps :=
  repeat first
    [ assumption
    | apply keeps_ret
    | apply keeps_panic
    | apply keeps_get
    | apply keeps_bind; [| intros ?]
    | apply keeps_modify; intros ?; reflexivity
    | apply keeps_ask; intros ? ?; reflexivity
    | apply keeps_emit; intros ? ?; reflexivity
    | match goal with
      | |- keeps _ (match ?x with _ => _ end) => destruct x
      | |- keeps _ (if ?b then _ else _) => destruct b
      end ].

Lemma emits_ret {A} P (a : A) : emits P (ret a).
Proof. intros w. exists []. now rewrite app_nil_r. Qed.

Lemma emits_panic {A} P text : emits P (@panic A text).
Proof. intros w. exists []. now rewrite app_nil_r. Qed.

Lemma emits_get {A} P (g : World -> A) : emits P (get g).
Proof. intros w. exists []. now rewrite app_nil_r. Qed.

Lemma emits_ask {A} P (q : nat -> A) : emits P (ask q).
Proof. intros w. exists []. cbn. now rewrite app_nil_r. Qed.

Lemma emits_modify P g : (forall w, trace (g w) = trace w) -> emits P (modify g).
Proof. intros H w. exists []. cbn. now rewrite app_nil_r, H. Qed.

Lemma emits_emit (P : event -> Prop) e : P e -> emits P (emit e).
Proof. intros H w. exists [e]. cbn. split; [reflexivity | now constructor]. Qed.

Lemma emits_bind {A B} P (c : M A) (k : A -> M B) :
  emits P c -> (forall a, emits P (k a)) -> emits P (bind c k).
Proof.
  intros Hc Hk w. unfold bind. specialize (Hc w).
  destruct (c w) as [a w1|t w1|]; [| exact Hc | exact I].
  destruct Hc as (evs & Ht & Hevs). specialize (Hk a w1).
  destruct (k a w1) as [b w2|t w2|]; [| | exact I];
    destruct Hk as (evs' & Ht' & Hevs'); exists (evs ++ evs')%list;
    (split; [now rewrite Ht', Ht, app_assoc | now apply Forall_app]).
Qed.

Lemma emits_Ret {A} P (c : M A) w a w' :
  emits P c -> c w = Ret a w' ->
  exists evs, trace w' = (trace w ++ evs)%list /\ Forall P evs.
Proof. intros H E. specialize (H w). now rewrite E in H. Qed.

Ltac emits_steps :=
  repeat first
    [ assumption
    | apply emits_ret
    | apply emits_panic
    | apply emits_get
    | apply emits_ask
    | apply emits_bind; [| intros ?]
    | apply emits_modify; intros ?; reflexivity
    | apply emits_emit; cbn; tauto
    | match goal with
      | |- emits _ (match ?x with _ => _ end) => destruct x
      | |- emits _ (if ?b then _ else _) => destruct b
      end ].

Section Frames.

Variable env : Env.

Lemma keeps_SaveSession {X} (f : World -> X) :
  (forall w n, f (set_tick n w) = f w) ->
  (forall w t, f (set_trace t w) = f w) ->
  (forall w s, f (set_storage s w) = f w) ->
  keeps f (SaveSession env).
Proof.
  intros H1 H2 H3. unfold SaveSession.
  apply keeps_bind; [now apply keeps_ask |]. intros [e|]; [apply keeps_ret |].
  apply keeps_bind; [apply keeps_get |]. intros s.
  apply keeps_bind; [apply keeps_modify; intros; apply H3 |]. intros _.
  apply keeps_bind; [now apply keeps_emit | intros _; apply keeps_ret].
Qed.

End Frames.

(** ** Before and while a connection is made *)

Section Connecting.

Variable env : Env.

(** X6.  [NewMTProto] leaves [stopRoutines] nil, and only
    [CreateConnection] sets it; until then [Disconnect], [Terminate] and
    [Reconnect] panic on the call of the nil function, before they change
    anything, and [ImportRawAuth] panics after it has overwritten the key,
    the hash, the address and the app id. *)
Theorem calls_before_a_connection_panic w b key hash addr dc app :
  stopRoutines w = None ->
  let text := "invalid memory address or nil pointer dereference" in
  Disconnect w = Panic text w
  /\ Terminate w = Panic text w
  /\ Reconnect env b w = Panic text w
  /\ exists w',
       ImportRawAuth env key hash addr dc app w = Panic text w'
       /\ current_session w' = mkSession key hash (serverSalt w) addr app.
Proof.
  intros H text.
  assert (HD : Disconnect w = Panic text w).
  { unfold Disconnect, bind, call_stopRoutines. now rewrite H. }
  split; [exact HD |]. split; [| split].
  - unfold Terminate, bind, call_stopRoutines. now rewrite H.
  - unfold Reconnect, bind. now rewrite HD.
  - eexists. split.
    + unfold ImportRawAuth, bind at 1, modify. unfold bind at 1.
      unfold Reconnect, bind at 1, Disconnect, bind at 1, call_stopRoutines.
      world_simpl. rewrite H. reflexivity.
    + reflexivity.
Qed.

Lemma makeAuthKey_begins w :
  exists r w' evs,
    makeAuthKey env w = Ret r w'
    /\ trace w' = (trace w ++ EvMakeAuthKey :: evs)%list
    /\ isConnected w' = isConnected w
    /\ transport w' = transport w
    /\ stopRoutines w' = stopRoutines w
    /\ cancelled w' = cancelled w
    /\ nextCtx w' = nextCtx w.
Proof.
  destruct (total_makeAuthKey env w) as (r & w' & E). exists r, w'.
  assert (K : forall X (f : World -> X),
             (forall w n, f (set_tick n w) = f w) ->
             (forall w t, f (set_trace t w) = f w) ->
             (forall w s, f (set_storage s w) = f w) ->
             (forall w k h s,
                f (set_encrypted true (set_serverSalt s (set_authKeyHash h
                     (set_authKey k w)))) = f w) ->
             f w' = f w).
  { intros X f H1 H2 H3 H4. refine (keeps_Ret f _ w r w' _ E).
    unfold makeAuthKey. pose proof (keeps_SaveSession env f H1 H2 H3).
    apply keeps_bind; [now apply keeps_emit |]. intros _.
    apply keeps_bind; [now apply keeps_ask |]. intros [e|k h s]; [apply keeps_ret |].
    apply keeps_bind; [apply keeps_modify; intros; apply H4 |]. intros _.
    keeps_steps. }
  assert (T : exists evs, trace w' = ((trace w ++ [EvMakeAuthKey]) ++ evs)%list
                          /\ Forall (fun _ => True) evs).
  { unfold makeAuthKey in E.
    rewrite (bind_Ret (emit EvMakeAuthKey) _ w tt
               (set_trace (trace w ++ [EvMakeAuthKey]) w) eq_refl) in E.
    refine (emits_Ret _ _ _ r w' _ E).
    unfold SaveSession. emits_steps. }
  destruct T as (evs & Ht & _). exists evs.
  split; [exact E |]. split; [now rewrite Ht, <- app_assoc |].
  repeat split; apply K; intros; reflexivity.
Qed.

(** X7.  When the dial fails, [CreateConnection] returns the error
    wrapped as "creating transport", starts no reader and runs no handshake;
    the transport is nil and [isConnected] is what it was, so a session that
    was connected still says so.  The context of the previous connection is
    not cancelled, although the function that cancels it has been
    replaced. *)
Theorem CreateConnection_failed_dial b w e :
  transport_NewTransport env (tick w) = Some e ->
  exists w',
    CreateConnection env b w = Ret (Some (errors_Wrap e "creating transport")) w'
    /\ isConnected w' = isConnected w
    /\ transport w' = None
    /\ stopRoutines w' = Some (nextCtx w)
    /\ cancelled w' = cancelled w
    /\ trace w' = (trace w ++ if b then [EvLog "Connecting"] else [])%list.
Proof.
  intros H. unfold CreateConnection, connect, bind, get, modify, ask, log_if, emit,
    modify, ret.
  destruct b; world_simpl; rewrite H; eexists; (split; [reflexivity |]); world_simpl;
    repeat split. now rewrite app_nil_r.
Qed.

(** X8.  When the dial succeeds, [CreateConnection] marks the session
    connected, starts the reader of the new context and only then looks at
    the key: the handshake runs exactly when the session has no key, and
    with a key the call returns nil.  The context of the previous
    connection is not cancelled here either. *)
Theorem CreateConnection_handshake_iff_no_key b w :
  transport_NewTransport env (tick w) = None ->
  exists err w' evs evs',
    CreateConnection env b w = Ret err w'
    /\ isConnected w' = true
    /\ transport w' = Some (nextCtx w)
    /\ stopRoutines w' = Some (nextCtx w)
    /\ nextCtx w' = S (nextCtx w)
    /\ cancelled w' = cancelled w
    /\ trace w' = (trace w ++ evs ++ EvStartReading (nextCtx w) :: evs')%list
    /\ (EvMakeAuthKey ∉ evs)
    /\ (EvMakeAuthKey ∈ evs' <-> encrypted w = false)
    /\ (encrypted w = true -> err = None).
Proof.
  intros H.
  assert (Hpre : exists w1 evs,
             CreateConnection env b w
             = (if encrypted w then ret None else makeAuthKey env) w1
             /\ isConnected w1 = true
             /\ transport w1 = Some (nextCtx w)
             /\ stopRoutines w1 = Some (nextCtx w)
             /\ nextCtx w1 = S (nextCtx w)
             /\ cancelled w1 = cancelled w
             /\ trace w1 = (trace w ++ evs ++ [EvStartReading (nextCtx w)])%list
             /\ (EvMakeAuthKey ∉ evs)).
  { unfold CreateConnection, connect, startReadingResponses, bind, get, modify, ask,
      log_if, emit, modify, ret.
    destruct b; world_simpl; rewrite H; world_simpl.
    - eexists _, [EvLog "Connecting"; EvLog "Connection established";
                  EvConnected (nextCtx w)].
      split; [reflexivity |]. world_simpl. repeat split.
      + now rewrite <- !app_assoc.
      + set_unfold. intuition congruence.
    - eexists _, [EvConnected (nextCtx w)].
      split; [reflexivity |]. world_simpl. repeat split.
      + now rewrite <- !app_assoc.
      + set_unfold. intuition congruence. }
  destruct Hpre as (w1 & evs & E & Hc & Ht & Hs & Hn & Hca & Htr & Hno).
  rewrite E. destruct (encrypted w).
  - exists None, w1, evs, []. split; [reflexivity |].
    do 6 (split; [assumption |]). split; [assumption |]. split; [| reflexivity].
    split; [intros Hin; now apply elem_of_nil in Hin | discriminate].
  - destruct (makeAuthKey_begins w1) as (r & w' & evs' & E' & Htr' & A1 & A2 & A3 & A4 & A5).
    exists r, w', evs, (EvMakeAuthKey :: evs'). split; [exact E' |].
    rewrite A1, A2, A3, A4, A5, Htr', Htr.
    do 6 (split; [assumption || (now rewrite <- !app_assoc) |]).
    split; [assumption |]. split; [| discriminate].
    split; [reflexivity |]. intros _. apply elem_of_cons. now left.
Qed.

End Connecting.

Lemma calls_before_a_connection_panic_witness :
  let env := quiet_env (fun _ => None) (fun _ => None) in
  let w := new_world "149.154.167.50:443" 6 true true in
  stopRoutines w = None
  /\ Reconnect env false w
     = Panic "invalid memory address or nil pointer dereference" w.
Proof.
  intros env w. split; [reflexivity |].
  destruct (calls_before_a_connection_panic env w false [] [] "" 0 0 eq_refl)
    as (_ & _ & H & _).
  exact H.
Defined.

Lemma CreateConnection_failed_dial_witness :
  let env := network_down (quiet_env (fun _ => None) (fun _ => None)) in
  exists e w',
    transport_NewTransport env (tick (connected_world true)) = Some e
    /\ CreateConnection env false (connected_world true)
       = Ret (Some (errors_Wrap e "creating transport")) w'
    /\ isConnected w' = true /\ transport w' = None /\ cancelled w' = [].
Proof.
  intros env.
  destruct (transport_NewTransport env (tick (connected_world true))) as [e|] eqn:E;
    [| discriminate E].
  destruct (CreateConnection_failed_dial env false (connected_world true) e E)
    as (w' & H & Hc & Ht & _ & Hca & _).
  exists e, w'. split; [reflexivity |]. split; [exact H |].
  rewrite Hc, Ht, Hca. repeat split.
Defined.

Lemma CreateConnection_handshake_iff_no_key_witness :
  let env := quiet_env (fun _ => None) (fun _ => None) in
  let w := new_world "149.154.167.50:443" 6 true false in
  transport_NewTransport env (tick w) = None
  /\ exists err w', CreateConnection env true w = Ret err w'
                    /\ EvMakeAuthKey ∈ trace w'.
Proof.
  intros env w. split; [reflexivity |].
  destruct (CreateConnection_handshake_iff_no_key env true w eq_refl)
    as (err & w' & evs & evs' & E & _ & _ & _ & _ & _ & Ht & _ & [_ Hk] & _).
  exists err, w'. split; [exact E |]. rewrite Ht.
  apply elem_of_app. right. apply elem_of_app. right.
  apply elem_of_cons. right. now apply Hk.
Defined.

(** ** When the reader stops *)

Section ReaderStops.

Variable env : Env.

(** X9.  After [Disconnect], and after [Terminate], every reader stops at
    its next pass without reading from the transport: the reader of the
    connection that was closed finds its context cancelled, and a reader
    left over from an earlier connection finds the session not connected,
    logs that and returns. *)
Theorem Disconnect_stops_the_readers w ctx :
  stopRoutines w = Some ctx ->
  forall stop, stop = Disconnect \/ stop = Terminate ->
  exists w',
    stop w = Ret None w'
    /\ readLoopStep env ctx w' = Ret LoopReturn w'
    /\ forall ctx', exists w'',
         readLoopStep env ctx' w' = Ret LoopReturn w''
         /\ tick w'' = tick w'
         /\ transport w'' = transport w'.
Proof.
  intros Hstop stop Hwhich.
  assert (H : exists w', stop w = Ret None w'
                         /\ (ctx ∈ cancelled w') /\ isConnected w' = false).
  { destruct Hwhich as [-> | ->].
    - eexists. split; [apply (Disconnect_eq w ctx Hstop) |]. world_simpl.
      split; [apply elem_of_cons; now left | reflexivity].
    - eexists. split; [apply (Terminate_eq w ctx Hstop) |]. world_simpl.
      split; [apply elem_of_cons; now left | reflexivity]. }
  destruct H as (w' & E & Hin & Hconn). exists w'. split; [exact E |]. split.
  - unfold readLoopStep, bind at 1, get. now rewrite bool_decide_eq_true_2.
  - intros ctx'. unfold readLoopStep, bind at 1, get.
    destruct (bool_decide (ctx' ∈ cancelled w')).
    + exists w'. repeat split.
    + unfold bind at 1, get. rewrite Hconn. cbn [negb].
      eexists. split; [reflexivity |]. world_simpl. split; reflexivity.
Qed.

Lemma handle_read_error_reconnects e w c0 :
  (forall c, e <> transport_ErrCode c) ->
  stopRoutines w = Some c0 ->
  encrypted w = true ->
  exists ctl w',
    handle_read_error env e w = Ret ctl w'
    /\ cancelled w' = c0 :: cancelled w
    /\ stopRoutines w' = Some (nextCtx w).
Proof.
  intros Hne Hstop Henc.
  assert (E1 : handle_read_error env e w
               = (if strings_Contains (Error env e) "required to reconnect!"
                  then err2 <- Reconnect env false ;;
                       _ <- log_error err2 "reconnecting error" ;; ret LoopReturn
                  else err2 <- Reconnect env false ;;
                       _ <- log_error err2 "reconnecting error" ;; ret LoopContinue) w).
  { unfold handle_read_error. destruct e; try reflexivity. now destruct (Hne e). }
  rewrite E1.
  destruct (Reconnect_effects env w c0 Hstop Henc)
    as (err & w' & evs & HR & _ & _ & _ & Hc & Hs & _).
  destruct (strings_Contains (Error env e) "required to reconnect!");
    rewrite (bind_Ret _ _ _ _ _ HR);
    destruct err; unfold log_error, bind, emit, modify, ret;
    eexists _, _; (split; [reflexivity |]); world_simpl; split; assumption.
Qed.

(** X10.  In a connected session with a key, when the read from the
    transport fails, a pass of the reader of the current connection never
    leads to another read by that reader.  On a cancelled read it returns
    without reconnecting.  On any other error it reconnects once, which
    cancels the reader's own context and starts the reader of the new
    connection; the pass either returns or, where the code has no [return],
    goes round to find its context cancelled and returns then. *)
Theorem read_error_ends_the_reader ctx w tr err :
  ctx ∉ cancelled w ->
  isConnected w = true ->
  transport w = Some tr ->
  stopRoutines w = Some ctx ->
  encrypted w = true ->
  transport_ReadMsg env (tick w) = ReadError err ->
  exists ctl w',
    readLoopStep env ctx w = Ret ctl w'
    /\ (err = context_Canceled ->
        ctl = LoopReturn /\ cancelled w' = cancelled w
        /\ stopRoutines w' = stopRoutines w)
    /\ (err <> context_Canceled ->
        cancelled w' = ctx :: cancelled w
        /\ stopRoutines w' = Some (nextCtx w)
        /\ readLoopStep env ctx w' = Ret LoopReturn w').
Proof.
  intros Hctx Hconn Htr Hstop Henc Hread.
  unfold readLoopStep, bind at 1, get. rewrite bool_decide_eq_false_2 by done.
  unfold bind at 1, get. rewrite Hconn. cbn [negb].
  set (w1 := set_tick (S (tick w)) w).
  assert (Hmsg : exists e, readMsg env w = Ret (Some e) w1
                 /\ (err = context_Canceled -> e = context_Canceled)
                 /\ (err = io_EOF -> e = io_EOF)
                 /\ (err <> context_Canceled -> err <> io_EOF ->
                     e <> context_Canceled /\ e <> io_EOF
                     /\ forall c, e <> transport_ErrCode c)).
  { unfold readMsg, bind, get, ask. rewrite Htr, Hread.
    destruct err; eexists; (split; [reflexivity |]);
      repeat split; intros; congruence. }
  destruct Hmsg as (e & Hmsg & HC & HE & HO).
  rewrite (bind_Ret _ _ _ _ _ Hmsg).
  assert (Hnext : forall w',
             cancelled w' = ctx :: cancelled w1 ->
             readLoopStep env ctx w' = Ret LoopReturn w').
  { intros w' Hc. unfold readLoopStep, bind at 1, get.
    rewrite bool_decide_eq_true_2; [reflexivity |].
    rewrite Hc. apply elem_of_cons. now left. }
  assert (Hcase : err = context_Canceled
                  \/ (err <> context_Canceled /\ err = io_EOF)
                  \/ (err <> context_Canceled /\ err <> io_EOF)).
  { destruct err; auto; right; right; split; discriminate. }
  destruct Hcase as [Hcan | [[Hcan Heof] | [Hcan Heof]]].
  - rewrite (HC Hcan). exists LoopReturn, w1. split; [reflexivity |].
    split; [intros _; repeat split | intros Hn; contradiction].
  - rewrite (HE Heof).
    destruct (Reconnect_effects env w1 ctx Hstop Henc)
      as (err' & w' & evs & HR & _ & _ & _ & Hc & Hs & _).
    rewrite (bind_Ret _ _ _ _ _ HR).
    destruct err' as [e0|].
    + exists LoopReturn, (set_trace (trace w' ++ [EvLog "reconnecting"]) w').
      split; [reflexivity |]. split; [intros Hn; contradiction |]. intros _.
      split; [exact Hc |]. split; [exact Hs |]. apply Hnext. exact Hc.
    + exists LoopReturn, w'.
      split; [reflexivity |]. split; [intros Hn; contradiction |]. intros _.
      split; [exact Hc |]. split; [exact Hs |]. apply Hnext. exact Hc.
  - destruct (HO Hcan Heof) as (N1 & N2 & N3).
    destruct (handle_read_error_reconnects e w1 ctx N3 Hstop Henc)
      as (ctl & w' & EH & Hc & Hs).
    exists ctl, w'. split.
    + destruct e; try exact EH; congruence.
    + split; [intros Hn; contradiction |]. intros _.
      split; [exact Hc |]. split; [exact Hs |]. now apply Hnext.
Qed.

End ReaderStops.

Lemma Disconnect_stops_the_readers_witness :
  let env := quiet_env (fun _ => None) (fun _ => None) in
  stopRoutines (connected_world true) = Some 0%nat
  /\ exists w',
       Disconnect (connected_world true) = Ret None w'
       /\ readLoopStep env 0%nat w' = Ret LoopReturn w'.
Proof.
  intros env. split; [reflexivity |].
  destruct (Disconnect_stops_the_readers env (connected_world true) 0%nat eq_refl
              Disconnect (or_introl eq_refl)) as (w' & E & H & _).
  exists w'. split; assumption.
Defined.

Lemma read_error_ends_the_reader_witness :
  let env := env_with (fun _ => None)
               (fun _ => ReadError (errors_New "connection reset by peer"))
               (fun _ => None) in
  ((0%nat ∉ cancelled (connected_world true))
   /\ transport_ReadMsg env (tick (connected_world true))
      = ReadError (errors_New "connection reset by peer"))
  /\ exists ctl w',
       readLoopStep env 0%nat (connected_world true) = Ret ctl w'
       /\ readLoopStep env 0%nat w' = Ret LoopReturn w'.
Proof.
  intros env. split; [split; [apply not_elem_of_nil | reflexivity] |].
  destruct (read_error_ends_the_reader env 0%nat (connected_world true) 0%nat
              (errors_New "connection reset by peer"))
    as (ctl & w' & E & _ & H); [apply not_elem_of_nil | reflexivity ..|].
  destruct (H ltac:(discriminate)) as (_ & _ & Hn).
  exists ctl, w'. split; [exact E | exact Hn].
Defined.

(** ** What the dispatch leaves alone *)

Section Dispatch.

Variable env : Env.

(** X11.  [ImportAuth] always returns, and it never touches the
    connection: the context, the transport and the connected flag are what
    they were, and so is the flag that says whether the session has a key,
    so that a session which had none still runs the handshake at its next
    connection.  A string that does not decode changes nothing at all. *)
Theorem ImportAuth_keeps_the_connection s w :
  exists r w',
    ImportAuth env s w = Ret r w'
    /\ encrypted w' = encrypted w
    /\ isConnected w' = isConnected w
    /\ transport w' = transport w
    /\ stopRoutines w' = stopRoutines w
    /\ cancelled w' = cancelled w
    /\ (forall err, StringSession_Decode s = inl err ->
        w' = w /\ r = (false, Some (errors_Wrap err "decoding string session"))).
Proof.
  assert (K : forall X (f : World -> X),
             (forall w n, f (set_tick n w) = f w) ->
             (forall w t, f (set_trace t w) = f w) ->
             (forall w s, f (set_storage s w) = f w) ->
             (forall w k h a p,
                f (set_appID p (set_Addr a (set_authKeyHash h (set_authKey k w))))
                = f w) ->
             keeps f (ImportAuth env s)).
  { intros X f H1 H2 H3 H4. unfold ImportAuth.
    pose proof (keeps_SaveSession env f H1 H2 H3).
    destruct (StringSession_Decode s); [apply keeps_ret |].
    apply keeps_bind; [apply keeps_modify; intros; apply H4 |]. intros _.
    keeps_steps. }
  assert (T : exists r w', ImportAuth env s w = Ret r w'
              /\ (forall err, StringSession_Decode s = inl err ->
                  w' = w /\ r = (false, Some (errors_Wrap err "decoding string session")))).
  { unfold ImportAuth. destruct (StringSession_Decode s) as [err|ss].
    - eexists _, _. split; [reflexivity |]. intros ? [= <-]. now split.
    - unfold bind at 1, modify. unfold bind at 1, get.
      destruct (memorySession _).
      + eexists _, _. split; [reflexivity | discriminate].
      + lazymatch goal with
        | |- context [bind (SaveSession env) _ ?w1] =>
            destruct (total_SaveSession env w1) as (e & w2 & E)
        end.
        rewrite (bind_Ret _ _ _ _ _ E).
        destruct e; eexists _, _; (split; [reflexivity | discriminate]). }
  destruct T as (r & w' & E & Hd). exists r, w'. split; [exact E |].
  do 5 (split; [refine (keeps_Ret _ _ w r w' (K _ _ _ _ _ _) E);
                  intros; reflexivity |]).
  exact Hd.
Qed.

(** X12.  A [NewSessionCreated] never fails and never reconnects: the salt
    is set, and when the store refuses the session the error is only
    logged.  The context, the connected flag, the registry and every
    channel are what they were. *)
Theorem NewSessionCreated_never_fails salt w :
  exists w',
    dispatch env (NewSessionCreated salt) w = Ret None w'
    /\ serverSalt w' = salt
    /\ isConnected w' = isConnected w
    /\ stopRoutines w' = stopRoutines w
    /\ cancelled w' = cancelled w
    /\ responseChannels w' = responseChannels w
    /\ chans w' = chans w
    /\ storage w'
       = (if memorySession w then storage w
          else match storage_Save env (tick w) with
               | Some _ => storage w
               | None => Some (mkSession (authKey w) (authKeyHash w) salt (Addr w)
                                 (appID w))
               end).
Proof.
  cbn [dispatch]. unfold bind at 1, modify. unfold bind at 1, get. world_simpl.
  destruct (memorySession w).
  - eexists. split; [reflexivity |]. world_simpl. repeat split.
  - destruct (storage_Save env (tick w)) as [e|] eqn:Es.
    + rewrite (bind_Ret _ _ _ _ _ (SaveSession_failed env (set_serverSalt salt w) e Es)).
      eexists. split; [reflexivity |]. world_simpl. repeat split.
    + rewrite (bind_Ret _ _ _ _ _ (SaveSession_ok env (set_serverSalt salt w) Es)).
      eexists. split; [reflexivity |]. world_simpl. repeat split.
Qed.

End Dispatch.
